(** * The Triangular distribution of pyro/distributions/triangular.py

    A shallow embedding of the class [Triangular] and of the part of the
    tensor library it consumes, followed by the properties of its
    construction, sampling transform, density, cumulative distribution,
    entropy and shape expansion.

    Numbers.  A tensor element is an IEEE-754 value in which rounding is
    left out: a real number, one of the two infinities, or NaN.  The
    special values follow the IEEE rules ([log 0] is minus infinity,
    [0 / 0] and [inf - inf] are NaN, every comparison with NaN is false);
    zero is unsigned and behaves as [+0].  Arithmetic on finite values is
    exact real arithmetic.

    Rounding.  The elementwise computations of [rsample] and [cdf] are
    also given over IEEE-754 single precision, the element type of the
    library's default tensors, through the Standard Library's [SpecFloat].
    The properties that depend on an order or an equality between
    computed values are stated for the exact arithmetic, and the
    single-precision inputs on which they fail are worked out. *)

From Stdlib Require Import Reals Lra Lia List String Bool Arith.
From Stdlib Require Import ZArith Floats.SpecFloat.
Import ListNotations.

Open Scope R_scope.

(** ** Scalars *)

Inductive scalar : Type :=
| NaN
| NegInf
| Real (r : R)
| PosInf.

Definition Rltb (x y : R) : bool := if Rlt_dec x y then true else false.
Definition Rleb (x y : R) : bool := if Rle_dec x y then true else false.
Definition Reqb (x y : R) : bool := if Req_dec_T x y then true else false.

Definition s_neg (x : scalar) : scalar :=
  match x with
  | NaN => NaN
  | NegInf => PosInf
  | Real r => Real (- r)
  | PosInf => NegInf
  end.

Definition s_add (x y : scalar) : scalar :=
  match x, y with
  | NaN, _ | _, NaN => NaN
  | PosInf, NegInf | NegInf, PosInf => NaN
  | PosInf, _ | _, PosInf => PosInf
  | NegInf, _ | _, NegInf => NegInf
  | Real a, Real b => Real (a + b)
  end.

Definition s_sub (x y : scalar) : scalar := s_add x (s_neg y).

(** The infinity with the sign of [a], NaN when [a] is zero. *)
Definition signed_inf (a : R) (pos : bool) : scalar :=
  if Reqb a 0 then NaN
  else if Bool.eqb (Rltb 0 a) pos then PosInf else NegInf.

Definition s_mul (x y : scalar) : scalar :=
  match x, y with
  | NaN, _ | _, NaN => NaN
  | Real a, Real b => Real (a * b)
  | Real a, PosInf | PosInf, Real a => signed_inf a true
  | Real a, NegInf | NegInf, Real a => signed_inf a false
  | PosInf, PosInf | NegInf, NegInf => PosInf
  | PosInf, NegInf | NegInf, PosInf => NegInf
  end.

Definition s_div (x y : scalar) : scalar :=
  match x, y with
  | NaN, _ | _, NaN => NaN
  | Real a, Real b => if Reqb b 0 then signed_inf a true else Real (a / b)
  | Real _, PosInf | Real _, NegInf => Real 0
  | PosInf, Real b => if Rltb b 0 then NegInf else PosInf
  | NegInf, Real b => if Rltb b 0 then PosInf else NegInf
  | _, _ => NaN
  end.

Fixpoint s_pow (x : scalar) (n : nat) : scalar :=
  match n with
  | O => Real 1
  | S m => s_mul x (s_pow x m)
  end.

Definition s_sqrt (x : scalar) : scalar :=
  match x with
  | NaN | NegInf => NaN
  | Real a => if Rltb a 0 then NaN else Real (sqrt a)
  | PosInf => PosInf
  end.

Definition s_log (x : scalar) : scalar :=
  match x with
  | NaN | NegInf => NaN
  | Real a => if Rltb a 0 then NaN else if Reqb a 0 then NegInf else Real (ln a)
  | PosInf => PosInf
  end.

Definition s_lt (x y : scalar) : bool :=
  match x, y with
  | NaN, _ | _, NaN => false
  | NegInf, NegInf => false
  | NegInf, _ => true
  | Real a, Real b => Rltb a b
  | Real _, PosInf => true
  | _, _ => false
  end.

Definition s_le (x y : scalar) : bool :=
  match x, y with
  | NaN, _ | _, NaN => false
  | NegInf, _ => true
  | Real a, Real b => Rleb a b
  | _, PosInf => true
  | _, _ => false
  end.

Definition s_gt (x y : scalar) : bool := s_lt y x.
Definition s_ge (x y : scalar) : bool := s_le y x.

Declare Scope scalar_scope.
Delimit Scope scalar_scope with S.
Bind Scope scalar_scope with scalar.
Infix "+" := s_add : scalar_scope.
Infix "-" := s_sub : scalar_scope.
Infix "*" := s_mul : scalar_scope.
Infix "/" := s_div : scalar_scope.

(** ** Exceptions *)

Inductive exn : Type :=
| ValueError (msg : string)
| TypeError (msg : string)
| RuntimeError (msg : string)
| NotImplementedError.

Inductive result (A : Type) : Type :=
| Ok (a : A)
| Raise (e : exn).

Arguments Ok {A} a.
Arguments Raise {A} e.

Definition bind {A B : Type} (m : result A) (k : A -> result B) : result B :=
  match m with
  | Ok a => k a
  | Raise e => Raise e
  end.

Notation "x <- m ;; k" := (bind m (fun x => k))
  (at level 61, m at next level, right associativity).

(** ** Shapes, indices and broadcasting

    A shape ([torch.Size]) lists the dimensions, outermost first.
    Broadcasting aligns shapes from the right, so the recursive functions
    below run over reversed lists. *)

Definition Size := list nat.
Definition Index := list nat.

(** [in_range s i]: [i] has one coordinate per dimension of [s], each
    below the dimension. *)
Fixpoint in_range (s : Size) (i : Index) : bool :=
  match s, i with
  | [], [] => true
  | d :: s', k :: i' => (k <? d)%nat && in_range s' i'
  | _, _ => false
  end.

(** All indices of a shape, in row-major order. *)
Fixpoint indices (s : Size) : list Index :=
  match s with
  | [] => [[]]
  | d :: s' => flat_map (fun k => map (cons k) (indices s')) (seq 0 d)
  end.

Fixpoint broadcast_rev (a b : list nat) : option (list nat) :=
  match a, b with
  | [], _ => Some b
  | _, [] => Some a
  | x :: a', y :: b' =>
      match broadcast_rev a' b' with
      | None => None
      | Some r =>
          if (x =? y)%nat then Some (x :: r)
          else if (x =? 1)%nat then Some (y :: r)
          else if (y =? 1)%nat then Some (x :: r)
          else None
      end
  end.

Definition broadcast_shapes (a b : Size) : option Size :=
  option_map (@rev nat) (broadcast_rev (rev a) (rev b)).

(** [expandable_rev a c]: a tensor of (reversed) shape [a] can be expanded
    to the (reversed) shape [c]. *)
Fixpoint expandable_rev (a c : list nat) : bool :=
  match a, c with
  | [], _ => true
  | _ :: _, [] => false
  | x :: a', z :: c' => ((x =? z)%nat || (x =? 1)%nat) && expandable_rev a' c'
  end.

Definition expandable (a c : Size) : bool := expandable_rev (rev a) (rev c).

(** The index of the source element read at index [i] of a broadcast
    view: leading coordinates are dropped and a coordinate along a
    dimension of size 1 is 0. *)
Fixpoint bidx_rev (s i : list nat) : list nat :=
  match s, i with
  | d :: s', k :: i' => (if (d =? 1)%nat then O else k) :: bidx_rev s' i'
  | _, _ => []
  end.

Definition bidx (s : Size) (i : Index) : Index :=
  rev (bidx_rev (rev s) (rev i)).

(** ** Tensors *)

Record Tensor (A : Type) : Type := mkTensor {
  shape : Size;
  elem : Index -> A
}.

Arguments mkTensor {A} shape elem.
Arguments shape {A} t.
Arguments elem {A} t i.

(** The element a tensor contributes at index [i] of a broadcast result. *)
Definition bget {A : Type} (t : Tensor A) (i : Index) : A :=
  elem t (bidx (shape t) i).

Definition shape_error : exn :=
  RuntimeError "The size of tensor a must match the size of tensor b".

Definition map1 {A B : Type} (f : A -> B) (a : Tensor A) : Tensor B :=
  mkTensor (shape a) (fun i => f (elem a i)).

Definition map2 {A B C : Type} (f : A -> B -> C)
    (a : Tensor A) (b : Tensor B) : result (Tensor C) :=
  match broadcast_shapes (shape a) (shape b) with
  | Some s => Ok (mkTensor s (fun i => f (bget a i) (bget b i)))
  | None => Raise shape_error
  end.

Definition map3 {A B C D : Type} (f : A -> B -> C -> D)
    (a : Tensor A) (b : Tensor B) (c : Tensor C) : result (Tensor D) :=
  match broadcast_shapes (shape a) (shape b) with
  | Some s1 =>
      match broadcast_shapes s1 (shape c) with
      | Some s => Ok (mkTensor s (fun i => f (bget a i) (bget b i) (bget c i)))
      | None => Raise shape_error
      end
  | None => Raise shape_error
  end.

(** A Python number used as an operand behaves as a tensor without
    dimensions. *)
Definition scalar_tensor {A : Type} (x : A) : Tensor A :=
  mkTensor [] (fun _ => x).

(** [Tensor.expand] *)
Definition tensor_expand {A : Type} (t : Tensor A) (s : Size)
    : result (Tensor A) :=
  if expandable (shape t) s
  then Ok (mkTensor s (fun i => bget t i))
  else Raise (RuntimeError "The expanded size of the tensor must match the existing size").

(** [Tensor.all] *)
Definition tensor_all (t : Tensor bool) : bool :=
  forallb (fun i => elem t i) (indices (shape t)).

(** Arithmetic and comparison operators, [torch.where], [torch.sqrt]. *)
Definition t_add := map2 s_add.
Definition t_sub := map2 s_sub.
Definition t_mul := map2 s_mul.
Definition t_div := map2 s_div.
Definition t_pow (t : Tensor scalar) (n : nat) : Tensor scalar :=
  map1 (fun x => s_pow x n) t.
Definition t_lt := map2 s_lt.
Definition t_le := map2 s_le.
Definition t_gt := map2 s_gt.
Definition t_ge := map2 s_ge.
Definition t_and := map2 andb.
Definition t_or := map2 orb.

Definition torch_where {A : Type} (c : Tensor bool) (x y : Tensor A)
    : result (Tensor A) :=
  map3 (fun (b : bool) (u v : A) => if b then u else v) c x y.

Definition torch_sqrt (t : Tensor scalar) : Tensor scalar := map1 s_sqrt t.

Definition ones_like (t : Tensor scalar) : Tensor scalar :=
  mkTensor (shape t) (fun _ => Real 1).
Definition zeros_like (t : Tensor scalar) : Tensor scalar :=
  mkTensor (shape t) (fun _ => Real 0).

(** A Python value passed where the library expects a tensor. *)
Inductive pyobj : Type :=
| Number (x : scalar)
| TensorObj (t : Tensor scalar).

Definition is_number (o : pyobj) : bool :=
  match o with
  | Number _ => true
  | TensorObj _ => false
  end.

(** [torch.log] takes a tensor; a Python number is rejected with a
    [TypeError]. *)
Definition torch_log (o : pyobj) : result (Tensor scalar) :=
  match o with
  | TensorObj t => Ok (map1 s_log t)
  | Number _ =>
      Raise (TypeError "log(): argument 'input' (position 1) must be Tensor, not float")
  end.

(** [torch.tensor(x)] and the method [Tensor.log]. *)
Definition torch_tensor (x : scalar) : Tensor scalar := scalar_tensor x.
Definition tensor_log (t : Tensor scalar) : Tensor scalar := map1 s_log t.

(** [broadcast_all]: numbers become tensors, then every argument is
    expanded to the common broadcast shape. *)
Definition as_tensor (o : pyobj) : Tensor scalar :=
  match o with
  | Number x => scalar_tensor x
  | TensorObj t => t
  end.

Definition broadcast_all (a b c : pyobj)
    : result (Tensor scalar * Tensor scalar * Tensor scalar) :=
  let ta := as_tensor a in
  let tb := as_tensor b in
  let tc := as_tensor c in
  match broadcast_shapes (shape ta) (shape tb) with
  | Some s1 =>
      match broadcast_shapes s1 (shape tc) with
      | Some s =>
          xa <- tensor_expand ta s ;;
          xb <- tensor_expand tb s ;;
          xc <- tensor_expand tc s ;;
          Ok (xa, xb, xc)
      | None => Raise shape_error
      end
  | None => Raise shape_error
  end.

(** ** The class [Triangular] *)

(** Modelled from the spec: the Standard Uniform generator (range [0,1))
    that the distribution keeps as its randomness source; the class
    [Uniform] is not part of triangular.py.  It holds its two bounds, and
    [rsample] returns a tensor of the requested shape whose entries are
    the draws of the random stream [rand]. *)
Record Uniform : Type := mkUniform {
  uniform_low : scalar;
  uniform_high : scalar
}.

Definition uniform_rsample (u : Uniform) (rand : Index -> R) (s : Size)
    : Tensor scalar :=
  mkTensor s (fun i => Real (rand i)).

(** The attributes of an instance.  [dict_validate_args] is the entry
    ['_validate_args'] of [self.__dict__]: [None] when the instance has no
    such entry, [Some v] when the attribute was assigned the value [v],
    which may be Python's [None]. *)
Record Triangular : Type := mkTriangular {
  low : Tensor scalar;
  high : Tensor scalar;
  peak : Tensor scalar;
  _uniform : Uniform;
  _batch_shape : Size;
  _event_shape : Size;
  dict_validate_args : option (option bool)
}.

(** [self.__dict__.get('_validate_args')]: the entry, [None] without
    one. *)
Definition _validate_args (d : Triangular) : option bool :=
  match dict_validate_args d with
  | Some v => v
  | None => None
  end.

(** The assignment [d._validate_args = v]. *)
Definition set_validate_args (d : Triangular) (v : option bool) : Triangular :=
  mkTriangular (low d) (high d) (peak d) (_uniform d)
               (_batch_shape d) (_event_shape d) (Some v).

Definition msg_low_high : string := "Triangular is not defined when low >= high".
Definition msg_peak_low : string := "Triangular is not defined when peak < low".
Definition msg_peak_high : string := "Triangular is not defined when peak > high".

(** The error of the parent constructor for a parameter that fails its
    constraint. *)

(** Python constants of the source. *)
Definition c_half : scalar := Real (1 / 2).
Definition c_one : scalar := Real 1.
Definition c_two : scalar := Real 2.
Definition c_three : scalar := Real 3.
Definition c_eighteen : scalar := Real 18.
Definition c_floor : scalar := Real (1 / 1000000).

Section Class.

(** The class-level default of the validation flag, kept by the parent
    class: it applies to an instance built with [validate_args=None]. *)
Variable default_validate_args : bool.

(** The check of [constraints.real], elementwise.  Line 19 declares it
    for [low] in [arg_constraints]; the constraint object belongs to the
    tensor library and is left open here.  ([high] and [peak] are declared
    [constraints.dependent], which the parent constructor skips.) *)
Variable constraints_real : scalar -> bool.

(** The message of the [ValueError] that the parent constructor raises
    when [low] fails that check.  Its text belongs to the tensor library
    and has changed between releases (the later ones print the offending
    tensor in it), so it is left open, as a function of [low]. *)
Variable invalid_low : Tensor scalar -> string.

(** Modelled from the spec: the parent constructor, which is not part of
    triangular.py, records the batch shape and the event shape, and
    stores the validation flag on the instance when one is given: an
    instance built with [validate_args=None] gets no entry and follows the
    class default. *)
Definition super_init (l h p : Tensor scalar) (batch_shape event_shape : Size)
    (validate_args : option bool) : Triangular :=
  mkTriangular l h p (mkUniform (Real 0) (Real 1))
               batch_shape event_shape
               (match validate_args with
                | Some b => Some (Some b)
                | None => None
                end).



(** The truth value of [self._validate_args] right after the parent
    constructor ran. *)
Definition validation_enabled (validate_args : option bool) : bool :=
  match validate_args with
  | Some b => b
  | None => default_validate_args
  end.

(** The parameter check of the parent constructor (run inside the call
    of line 45 when validation is on): every element of [low] has to pass
    [constraints.real]. *)
Definition low_is_real (l : Tensor scalar) : bool :=
  tensor_all (map1 constraints_real l).

Definition __init__ (low high peak : pyobj) (validate_args : option bool)
    : result Triangular :=
  lhp <- broadcast_all low high peak ;;
  let '(l, h, p) := lhp in
  let batch_shape :=
    if is_number low && is_number high && is_number peak
    then [] else shape l in
  let event_shape : Size := [] in
  let self := super_init l h p batch_shape event_shape validate_args in
  if validation_enabled validate_args then
    if negb (low_is_real l) then Raise (ValueError (invalid_low l)) else
    lt <- t_lt l h ;;
    if negb (tensor_all lt) then Raise (ValueError msg_low_high) else
    le1 <- t_le l p ;;
    if negb (tensor_all le1) then Raise (ValueError msg_peak_low) else
    le2 <- t_le p h ;;
    if negb (tensor_all le2) then Raise (ValueError msg_peak_high) else
    Ok self
  else Ok self.

(** Modelled from the spec: [_extended_shape] of the parent class, the
    sample shape followed by the batch shape (and the event shape, which
    is empty here). *)
Definition _extended_shape (self : Triangular) (sample_shape : Size) : Size :=
  sample_shape ++ _batch_shape self ++ _event_shape self.

Definition mean (self : Triangular) : result (Tensor scalar) :=
  a <- t_add (low self) (high self) ;;
  b <- t_add a (peak self) ;;
  t_div b (scalar_tensor c_three).

Definition variance (self : Triangular) : result (Tensor scalar) :=
  a <- t_add (t_pow (low self) 2) (t_pow (high self) 2) ;;
  b <- t_add a (t_pow (peak self) 2) ;;
  lh <- t_mul (low self) (high self) ;;
  c <- t_sub b lh ;;
  lp <- t_mul (low self) (peak self) ;;
  d <- t_sub c lp ;;
  hp <- t_mul (high self) (peak self) ;;
  e <- t_sub d hp ;;
  t_div e (scalar_tensor c_eighteen).

Definition entropy (self : Triangular) : result (Tensor scalar) :=
  l2 <- torch_log (Number c_two) ;;
  a <- t_sub (scalar_tensor c_half) l2 ;;
  d <- t_sub (high self) (low self) ;;
  ld <- torch_log (TensorObj d) ;;
  t_add a ld.

Definition rsample (self : Triangular) (rand : Index -> R) (sample_shape : Size)
    : result (Tensor scalar) :=
  let shape := _extended_shape self sample_shape in
  interval_length <- t_sub (high self) (low self) ;;
  let samples := uniform_rsample (_uniform self) rand shape in
  pl <- t_sub (peak self) (low self) ;;
  c <- t_div pl interval_length ;;
  cond <- t_lt samples c ;;
  m1 <- t_mul samples interval_length ;;
  pl' <- t_sub (peak self) (low self) ;;
  m2 <- t_mul m1 pl' ;;
  left <- t_add (low self) (torch_sqrt m2) ;;
  om <- t_sub (scalar_tensor c_one) samples ;;
  n1 <- t_mul om interval_length ;;
  hp <- t_sub (high self) (peak self) ;;
  n2 <- t_mul n1 hp ;;
  right <- t_sub (high self) (torch_sqrt n2) ;;
  torch_where cond left right.

Definition log_prob (self : Triangular) (value : Tensor scalar)
    : result (Tensor scalar) :=
  interval_length <- t_sub (high self) (low self) ;;
  c1 <- t_ge value (low self) ;;
  c2 <- t_le value (peak self) ;;
  cond <- t_and c1 c2 ;;
  vl <- t_sub value (low self) ;;
  lvl <- torch_log (TensorObj vl) ;;
  a1 <- t_add (tensor_log (torch_tensor c_two)) lvl ;;
  li <- torch_log (TensorObj interval_length) ;;
  a2 <- t_sub a1 li ;;
  pl <- t_sub (peak self) (low self) ;;
  lpl <- torch_log (TensorObj pl) ;;
  left <- t_sub a2 lpl ;;
  hv <- t_sub (high self) value ;;
  lhv <- torch_log (TensorObj hv) ;;
  b1 <- t_add (tensor_log (torch_tensor c_two)) lhv ;;
  li' <- torch_log (TensorObj interval_length) ;;
  b2 <- t_sub b1 li' ;;
  hp <- t_sub (high self) (peak self) ;;
  lhp <- torch_log (TensorObj hp) ;;
  right <- t_sub b2 lhp ;;
  inside_interval <- torch_where cond left right ;;
  o1 <- t_lt value (low self) ;;
  o2 <- t_gt value (high self) ;;
  outside <- t_or o1 o2 ;;
  fl <- t_mul (ones_like value) (scalar_tensor c_floor) ;;
  lfl <- torch_log (TensorObj fl) ;;
  torch_where outside lfl inside_interval.

Definition cdf (self : Triangular) (value : Tensor scalar)
    : result (Tensor scalar) :=
  interval_length <- t_sub (high self) (low self) ;;
  c1 <- t_gt value (low self) ;;
  c2 <- t_le value (peak self) ;;
  cond <- t_and c1 c2 ;;
  vl <- t_sub value (low self) ;;
  pl <- t_sub (peak self) (low self) ;;
  den1 <- t_mul interval_length pl ;;
  left <- t_div (t_pow vl 2) den1 ;;
  hv <- t_sub (high self) value ;;
  hp <- t_sub (high self) (peak self) ;;
  den2 <- t_mul interval_length hp ;;
  q <- t_div (t_pow hv 2) den2 ;;
  right <- t_sub (torch_tensor c_one) q ;;
  inside_interval <- torch_where cond left right ;;
  b <- t_le value (low self) ;;
  below_low <- torch_where b (zeros_like value) inside_interval ;;
  a <- t_ge value (high self) ;;
  torch_where a (ones_like value) below_low.

(** *** Objects and [expand]

    [expand] builds a second instance and assigns an attribute of it, so
    instances live in a store and are named by their position in it. *)

Definition store := list Triangular.
Definition ref := nat.

Definition new (st : store) (low high peak : pyobj) (validate_args : option bool)
    : result (ref * store) :=
  obj <- __init__ low high peak validate_args ;;
  Ok (List.length st, (st ++ [obj])%list).

Fixpoint update (st : store) (r : ref) (f : Triangular -> Triangular) : store :=
  match st, r with
  | [], _ => []
  | d :: st', O => f d :: st'
  | d :: st', S r' => d :: update st' r' f
  end.

(** [super(Triangular, self).expand], the parent's method: it is not part
    of triangular.py and is left open. *)
Variable super_expand : store -> ref -> Size -> result (ref * store).

Definition expand (st : store) (self : ref) (batch_shape : Size)
    : result (ref * store) :=
  match nth_error st self with
  | None => Raise (RuntimeError "no such object")
  | Some d =>
      match super_expand st self batch_shape with
      | Raise NotImplementedError =>
          low' <- tensor_expand (low d) batch_shape ;;
          high' <- tensor_expand (high d) batch_shape ;;
          peak' <- tensor_expand (peak d) batch_shape ;;
          rs <- new st (TensorObj low') (TensorObj high') (TensorObj peak')
                    (Some false) ;;
          let '(result, st1) := rs in
          Ok (result, update st1 result
                        (fun o => set_validate_args o (_validate_args d)))
      | other => other
      end
  end.

End Class.

(** ** Definitions used by the statements *)

(** Well-formed instances: the three parameters have the batch shape and
    the event shape is empty.  The constructor establishes it
    ([init_wf]). *)
Definition wf (self : Triangular) : Prop :=
  shape (low self) = _batch_shape self /\
  shape (high self) = _batch_shape self /\
  shape (peak self) = _batch_shape self /\
  _event_shape self = [].

(** Every shape that meets while a value of shape [v] is combined with
    parameters of shape [b]. *)
Record bcast (v b s : Size) : Prop := mkBcast {
  bc_vb : broadcast_shapes v b = Some s;
  bc_bv : broadcast_shapes b v = Some s;
  bc_sb : broadcast_shapes s b = Some s;
  bc_bs : broadcast_shapes b s = Some s;
  bc_sv : broadcast_shapes s v = Some s;
  bc_vs : broadcast_shapes v s = Some s
}.

(** The element that [log_prob] computes from the elements of its
    operands; [log_prob_elem] proves that the tensor program does so. *)
Definition log_prob_left (l h p v : scalar) : scalar :=
  s_log c_two + s_log (v - l) - s_log (h - l) - s_log (p - l).

Definition log_prob_right (l h p v : scalar) : scalar :=
  s_log c_two + s_log (h - v) - s_log (h - l) - s_log (h - p).

Definition log_prob_at (l h p v : scalar) : scalar :=
  if s_lt v l || s_gt v h then s_log (Real 1 * c_floor)
  else if s_ge v l && s_le v p then log_prob_left l h p v
  else log_prob_right l h p v.

(** The element that [cdf] computes ([cdf_elem]). *)
Definition cdf_left (l h p v : scalar) : scalar :=
  s_pow (v - l) 2 / ((h - l) * (p - l)).

Definition cdf_right (l h p v : scalar) : scalar :=
  c_one - s_pow (h - v) 2 / ((h - l) * (h - p)).

Definition cdf_inside (l h p v : scalar) : scalar :=
  if s_gt v l && s_le v p then cdf_left l h p v else cdf_right l h p v.

Definition cdf_at (l h p v : scalar) : scalar :=
  if s_ge v h then Real 1
  else if s_le v l then Real 0
  else cdf_inside l h p v.

(** The element that [rsample] computes from a uniform draw [u]
    ([rsample_elem]). *)
Definition rsample_left (l h p u : scalar) : scalar :=
  l + s_sqrt (u * (h - l) * (p - l)).

Definition rsample_right (l h p u : scalar) : scalar :=
  h - s_sqrt ((c_one - u) * (h - l) * (h - p)).

Definition rsample_at (l h p u : scalar) : scalar :=
  if s_lt u ((p - l) / (h - l))
  then rsample_left l h p u
  else rsample_right l h p u.

(** *** Rounded arithmetic

    The operations that [rsample] and [cdf] apply to the elements of
    their operands. *)
Record arithmetic (T : Type) : Type := mkArithmetic {
  a_zero : T;
  a_one : T;
  a_add : T -> T -> T;
  a_sub : T -> T -> T;
  a_mul : T -> T -> T;
  a_div : T -> T -> T;
  a_sqrt : T -> T;
  a_lt : T -> T -> bool;
  a_le : T -> T -> bool
}.

Arguments a_zero {T} _.
Arguments a_one {T} _.
Arguments a_add {T} _ _ _.
Arguments a_sub {T} _ _ _.
Arguments a_mul {T} _ _ _.
Arguments a_div {T} _ _ _.
Arguments a_sqrt {T} _ _.
Arguments a_lt {T} _ _ _.
Arguments a_le {T} _ _ _.

Fixpoint a_pow {T : Type} (A : arithmetic T) (x : T) (n : nat) : T :=
  match n with
  | O => a_one A
  | S m => a_mul A x (a_pow A x m)
  end.

(** The operations on [scalar]: no rounding. *)
Definition exact : arithmetic scalar :=
  mkArithmetic scalar (Real 0) c_one s_add s_sub s_mul s_div s_sqrt s_lt s_le.

(** IEEE-754 binary32: precision 24, maximal exponent 128, rounding to
    nearest, ties to even.  [f32 m e] is the float nearest to [m * 2^e]. *)
Definition f32 (m e : Z) : spec_float := binary_normalize 24 128 m e false.

Definition binary32 : arithmetic spec_float :=
  mkArithmetic spec_float (f32 0 0) (f32 1 0)
               (SFadd 24 128) (SFsub 24 128) (SFmul 24 128) (SFdiv 24 128)
               (SFsqrt 24 128) SFltb SFleb.

(** Lines 57 to 61 at one element, [u] being the uniform draw. *)
Definition rsample_elementwise {T : Type} (A : arithmetic T) (l h p u : T) : T :=
  let interval_length := a_sub A h l in
  if a_lt A u (a_div A (a_sub A p l) interval_length)
  then a_add A l (a_sqrt A (a_mul A (a_mul A u interval_length) (a_sub A p l)))
  else a_sub A h
         (a_sqrt A (a_mul A (a_mul A (a_sub A (a_one A) u) interval_length)
                            (a_sub A h p))).

(** Lines 74 to 80 at one element. *)
Definition cdf_elementwise {T : Type} (A : arithmetic T) (l h p v : T) : T :=
  let interval_length := a_sub A h l in
  let inside_interval :=
    if a_lt A l v && a_le A v p
    then a_div A (a_pow A (a_sub A v l) 2)
                 (a_mul A interval_length (a_sub A p l))
    else a_sub A (a_one A)
           (a_div A (a_pow A (a_sub A h v) 2)
                    (a_mul A interval_length (a_sub A h p))) in
  let below_low := if a_le A v l then a_zero A else inside_interval in
  if a_le A h v then a_one A else below_low.

(** The single-precision floats nearest to 0.1 and to 0.3, the float
    that follows the latter, and two powers of two. *)
Definition one_tenth : spec_float := f32 13421773 (-27).
Definition three_tenths : spec_float := f32 10066330 (-25).
Definition after_three_tenths : spec_float := f32 10066331 (-25).
Definition two_pow_26 : spec_float := f32 1 26.
Definition two_pow_minus_25 : spec_float := f32 1 (-25).

(** The three checks of the constructor, on the broadcast parameters. *)
Definition violates_low_high (l h : Tensor scalar) : Prop :=
  exists i, in_range (shape l) i = true /\ s_lt (elem l i) (elem h i) = false.

Definition violates_low_peak (l p : Tensor scalar) : Prop :=
  exists i, in_range (shape l) i = true /\ s_le (elem l i) (elem p i) = false.

Definition violates_peak_high (p h : Tensor scalar) : Prop :=
  exists i, in_range (shape p) i = true /\ s_le (elem p i) (elem h i) = false.

(** The shape [broadcast_all] gives to its three results, if any. *)
Definition broadcast_shape3 (a b c : pyobj) : option Size :=
  match broadcast_shapes (shape (as_tensor a)) (shape (as_tensor b)) with
  | Some s1 => broadcast_shapes s1 (shape (as_tensor c))
  | None => None
  end.

(** A tensor with two elements and one with three, and a distribution
    with the batch shape [[2]]. *)
Definition pair_tensor (a b : R) : Tensor scalar :=
  mkTensor [2%nat]
    (fun i => match i with
              | [O] => Real a
              | _ => Real b
              end).

Definition triple_tensor (a : R) : Tensor scalar :=
  mkTensor [3%nat] (fun _ => Real a).

Definition pair_triangle : Triangular :=
  super_init (pair_tensor 0 1) (pair_tensor 1 3) (pair_tensor (1 / 2) 2)
             [2%nat] [] None.

(** A check that rejects NaN and nothing else, as the documented
    [constraints.real] ("the extended real line") does with
    [value == value]. *)
Definition rejects_nan (x : scalar) : bool :=
  match x with
  | NaN => false
  | _ => true
  end.

(** The message of the release of the tensor library that the class was
    written for. *)
Definition low_message (l : Tensor scalar) : string :=
  "The parameter low has invalid values".

(** Instances on which the theorems are applied below:
    [Triangular(0., 1., 0.5)] and [Triangular(0., 1., 0.)] as the
    constructor builds them from three Python numbers, the first of them
    with [validate_args=True], and a parent class whose [expand] is not
    implemented. *)
Definition number_view (x : R) : Tensor scalar :=
  mkTensor [] (fun i => bget (scalar_tensor (Real x)) i).

Definition unit_triangle : Triangular :=
  super_init (number_view 0) (number_view 1) (number_view (1 / 2)) [] [] None.

Definition checked_triangle : Triangular :=
  super_init (number_view 0) (number_view 1) (number_view (1 / 2)) [] []
             (Some true).

Definition left_triangle : Triangular :=
  super_init (number_view 0) (number_view 1) (number_view 0) [] [] None.

Definition no_super_expand (st : store) (self : ref) (batch_shape : Size)
    : result (ref * store) :=
  Raise NotImplementedError.

(** * Lemmas *)

(** ** Comparisons of scalars *)

Lemma Rltb_true (x y : R) : Rltb x y = true <-> x < y.
Proof. unfold Rltb; destruct (Rlt_dec x y); split; intros; auto; discriminate. Qed.

Lemma Rltb_false (x y : R) : Rltb x y = false <-> y <= x.
Proof.
  unfold Rltb; destruct (Rlt_dec x y); split; intros; auto; try discriminate; lra.
Qed.

Lemma Rleb_true (x y : R) : Rleb x y = true <-> x <= y.
Proof. unfold Rleb; destruct (Rle_dec x y); split; intros; auto; discriminate. Qed.

Lemma Rleb_false (x y : R) : Rleb x y = false <-> y < x.
Proof.
  unfold Rleb; destruct (Rle_dec x y); split; intros; auto; try discriminate; lra.
Qed.

Lemma Reqb_true (x y : R) : Reqb x y = true <-> x = y.
Proof. unfold Reqb; destruct (Req_dec_T x y); split; intros; auto; discriminate. Qed.

Lemma Reqb_false (x y : R) : Reqb x y = false <-> x <> y.
Proof.
  unfold Reqb; destruct (Req_dec_T x y); split; intros; auto; try discriminate.
  contradiction.
Qed.

(** Decide the boolean comparisons of reals that occur in a goal. *)
Ltac rcases :=
  repeat match goal with
  | H : Rltb _ _ = true |- _ => apply Rltb_true in H
  | H : Rltb _ _ = false |- _ => apply Rltb_false in H
  | H : Rleb _ _ = true |- _ => apply Rleb_true in H
  | H : Rleb _ _ = false |- _ => apply Rleb_false in H
  | H : Reqb _ _ = true |- _ => apply Reqb_true in H
  | H : Reqb _ _ = false |- _ => apply Reqb_false in H
  | |- context [Rltb ?x ?y] => destruct (Rltb x y) eqn:?
  | |- context [Rleb ?x ?y] => destruct (Rleb x y) eqn:?
  | |- context [Reqb ?x ?y] => destruct (Reqb x y) eqn:?
  end.

(** [<=] and [<] of scalars behave as an order away from NaN. *)
Lemma s_le_trans (x y z : scalar) :
  s_le x y = true -> s_le y z = true -> s_le x z = true.
Proof.
  destruct x, y, z; simpl; intros H1 H2; try discriminate; auto.
  rcases; try reflexivity; lra.
Qed.

Lemma s_lt_le_trans (x y z : scalar) :
  s_lt x y = true -> s_le y z = true -> s_lt x z = true.
Proof.
  destruct x, y, z; simpl; intros H1 H2; try discriminate; auto.
  rcases; try reflexivity; lra.
Qed.

Lemma s_le_not_lt (x y : scalar) : s_le x y = true -> s_lt y x = false.
Proof.
  destruct x, y; simpl; intros H; try discriminate; auto.
  rcases; try reflexivity; lra.
Qed.

Lemma s_lt_not_le (x y : scalar) : s_lt x y = true -> s_le y x = false.
Proof.
  destruct x, y; simpl; intros H; try discriminate; auto.
  rcases; try reflexivity; lra.
Qed.

Lemma s_lt_le (x y : scalar) : s_lt x y = true -> s_le x y = true.
Proof.
  destruct x, y; simpl; intros H; try discriminate; auto.
  rcases; try reflexivity; lra.
Qed.

Lemma s_le_refl_l (x y : scalar) : s_le x y = true -> s_le x x = true.
Proof.
  destruct x, y; simpl; intros H; try discriminate; auto;
    rcases; try reflexivity; lra.
Qed.

Lemma s_le_refl_r (x y : scalar) : s_le x y = true -> s_le y y = true.
Proof.
  destruct x, y; simpl; intros H; try discriminate; auto;
    rcases; try reflexivity; lra.
Qed.

(** ** Shapes and indices *)

Lemma in_range_length (s : Size) (i : Index) :
  in_range s i = true -> List.length i = List.length s.
Proof.
  revert i; induction s as [|d s IH]; intros [|k i]; simpl; try discriminate; auto.
  intros H; apply andb_prop in H as [_ H]; f_equal; auto.
Qed.

Lemma in_range_app (s1 s2 : Size) (i1 i2 : Index) :
  List.length i1 = List.length s1 ->
  in_range (s1 ++ s2) (i1 ++ i2) = in_range s1 i1 && in_range s2 i2.
Proof.
  revert i1; induction s1 as [|d s1 IH]; intros [|k i1]; simpl; try discriminate; auto.
  intros H; injection H as H; rewrite IH by assumption.
  now rewrite andb_assoc.
Qed.

Lemma in_range_rev (s : Size) (i : Index) :
  in_range (rev s) (rev i) = in_range s i.
Proof.
  destruct (Nat.eq_dec (List.length i) (List.length s)) as [E|N].
  - revert i E; induction s as [|d s IH]; intros [|k i] E; simpl in *;
      try discriminate; auto.
    injection E as E.
    rewrite in_range_app by (now rewrite !length_rev).
    rewrite IH by assumption; simpl.
    rewrite andb_true_r; apply andb_comm.
  - destruct (in_range s i) eqn:H1.
    + apply in_range_length in H1; contradiction.
    + destruct (in_range (rev s) (rev i)) eqn:H2; auto.
      apply in_range_length in H2; rewrite !length_rev in H2; contradiction.
Qed.

Lemma indices_in_range (s : Size) (i : Index) :
  In i (indices s) <-> in_range s i = true.
Proof.
  revert i; induction s as [|d s IH]; intros i; simpl.
  - destruct i; split; intros H; auto; try discriminate.
    destruct H as [H|[]]; discriminate.
  - rewrite in_flat_map; split.
    + intros (k & Hk & Hi). apply in_map_iff in Hi as (j & <- & Hj).
      apply in_seq in Hk. apply IH in Hj. rewrite Hj, andb_true_r.
      apply Nat.ltb_lt; lia.
    + destruct i as [|k j]; try discriminate.
      intros H; apply andb_prop in H as [Hk Hj]. apply Nat.ltb_lt in Hk.
      exists k; split; [apply in_seq; lia|].
      apply in_map, IH, Hj.
Qed.

Lemma tensor_all_true (t : Tensor bool) :
  tensor_all t = true <->
  forall i, in_range (shape t) i = true -> elem t i = true.
Proof.
  unfold tensor_all; rewrite forallb_forall; split; intros H i Hi.
  - apply H, indices_in_range, Hi.
  - apply H, indices_in_range, Hi.
Qed.

Lemma forallb_false {A : Type} (f : A -> bool) (l : list A) :
  forallb f l = false <-> exists x, In x l /\ f x = false.
Proof.
  induction l as [|a l IH]; simpl.
  - split; [discriminate | intros (x & [] & _)].
  - rewrite andb_false_iff, IH; split.
    + intros [H | (x & Hx & Hf)]; [exists a | exists x]; auto.
    + intros (x & [<- | Hx] & Hf); [left | right; exists x]; auto.
Qed.

Lemma tensor_all_false (t : Tensor bool) :
  tensor_all t = false <->
  exists i, in_range (shape t) i = true /\ elem t i = false.
Proof.
  unfold tensor_all; rewrite forallb_false; split;
    intros (i & Hi & Hf); exists i; split; auto; apply indices_in_range, Hi.
Qed.

(** ** Broadcasting *)

Lemma expandable_rev_refl (a : list nat) : expandable_rev a a = true.
Proof. induction a; simpl; auto. now rewrite Nat.eqb_refl, IHa. Qed.

Lemma expandable_rev_trans (a b c : list nat) :
  expandable_rev a b = true -> expandable_rev b c = true ->
  expandable_rev a c = true.
Proof.
  revert b c; induction a as [|x a IH]; intros [|y b] [|z c]; simpl; auto;
    try discriminate.
  intros H1 H2.
  apply andb_prop in H1 as [H1 H1'], H2 as [H2 H2'].
  rewrite (IH _ _ H1' H2'), andb_true_r.
  apply orb_prop in H1 as [H1|H1], H2 as [H2|H2];
    apply Nat.eqb_eq in H1, H2; subst; rewrite ?Nat.eqb_refl, ?orb_true_r; auto.
Qed.

Lemma expandable_rev_app (a c : list nat) : expandable_rev a (a ++ c) = true.
Proof. induction a; simpl; auto. now rewrite Nat.eqb_refl, IHa. Qed.

Lemma broadcast_rev_expandable (a b c : list nat) :
  broadcast_rev a b = Some c ->
  expandable_rev a c = true /\ expandable_rev b c = true.
Proof.
  revert b c; induction a as [|x a IH]; intros b c; simpl.
  - intros [= <-]; split; auto using expandable_rev_refl.
  - destruct b as [|y b].
    + intros [= <-]; split; [apply (expandable_rev_refl (x :: a)) | reflexivity].
    + destruct (broadcast_rev a b) as [r|] eqn:E; [|discriminate].
      destruct (IH _ _ E) as [Ha Hb].
      destruct (x =? y)%nat eqn:Exy; [|destruct (x =? 1)%nat eqn:Ex1;
        [|destruct (y =? 1)%nat eqn:Ey1; [|discriminate]]];
        intros [= <-]; simpl;
        rewrite ?(Nat.eqb_sym y x), ?Exy, ?Ex1, ?Ey1, ?Nat.eqb_refl,
          ?orb_true_r, Ha, Hb; auto.
Qed.

Lemma expandable_rev_broadcast (a c : list nat) :
  expandable_rev a c = true ->
  broadcast_rev a c = Some c /\ broadcast_rev c a = Some c.
Proof.
  revert c; induction a as [|x a IH]; intros [|z c]; simpl; auto; try discriminate.
  intros H; apply andb_prop in H as [H H'].
  destruct (IH _ H') as [-> ->].
  apply orb_prop in H as [H|H]; apply Nat.eqb_eq in H; subst.
  - now rewrite Nat.eqb_refl.
  - destruct (1 =? z)%nat eqn:E1.
    + apply Nat.eqb_eq in E1; subst z; auto.
    + rewrite (Nat.eqb_sym z 1), E1; simpl; auto.
Qed.

Lemma bidx_rev_absorb (a c i : list nat) :
  expandable_rev a c = true -> bidx_rev a (bidx_rev c i) = bidx_rev a i.
Proof.
  revert c i; induction a as [|x a IH]; intros [|z c] [|k i]; simpl; auto;
    try discriminate.
  intros H; apply andb_prop in H as [H H'].
  rewrite (IH _ _ H'); f_equal.
  destruct (x =? 1)%nat eqn:E; auto.
  rewrite orb_false_r in H; apply Nat.eqb_eq in H; subst z.
  now rewrite E.
Qed.

Lemma bidx_rev_in_range (a i rest : list nat) :
  in_range a i = true -> bidx_rev a (i ++ rest) = i.
Proof.
  revert i; induction a as [|x a IH]; intros [|k i]; simpl; try discriminate; auto.
  intros H; apply andb_prop in H as [Hk H].
  rewrite (IH _ H); f_equal.
  destruct (x =? 1)%nat eqn:E; auto.
  apply Nat.eqb_eq in E; apply Nat.ltb_lt in Hk; lia.
Qed.

Lemma in_range_bidx_rev (a c i : list nat) :
  expandable_rev a c = true -> in_range c i = true ->
  in_range a (bidx_rev a i) = true.
Proof.
  revert c i; induction a as [|x a IH]; intros [|z c] [|k i]; simpl; auto;
    try discriminate.
  intros H Hi; apply andb_prop in H as [H H'], Hi as [Hk Hi].
  rewrite (IH _ _ H' Hi), andb_true_r.
  destruct (x =? 1)%nat eqn:E.
  - apply Nat.eqb_eq in E; subst x; auto.
  - rewrite orb_false_r in H; apply Nat.eqb_eq in H; subst z; auto.
Qed.

(** The same facts on shapes in their usual order. *)

Lemma broadcast_shapes_expandable (a b c : Size) :
  broadcast_shapes a b = Some c ->
  expandable a c = true /\ expandable b c = true.
Proof.
  unfold broadcast_shapes, expandable.
  destruct (broadcast_rev (rev a) (rev b)) as [r|] eqn:E; [|discriminate].
  intros [= <-]; rewrite rev_involutive.
  now apply broadcast_rev_expandable.
Qed.

Lemma expandable_broadcast (a c : Size) :
  expandable a c = true ->
  broadcast_shapes a c = Some c /\ broadcast_shapes c a = Some c.
Proof.
  unfold broadcast_shapes, expandable; intros H.
  destruct (expandable_rev_broadcast _ _ H) as [-> ->]; simpl.
  now rewrite rev_involutive.
Qed.

Lemma expandable_refl (a : Size) : expandable a a = true.
Proof. apply expandable_rev_refl. Qed.

Lemma expandable_trans (a b c : Size) :
  expandable a b = true -> expandable b c = true -> expandable a c = true.
Proof. apply expandable_rev_trans. Qed.

Lemma expandable_nil (c : Size) : expandable [] c = true.
Proof. reflexivity. Qed.

Lemma expandable_app (s b : Size) : expandable b (s ++ b) = true.
Proof. unfold expandable; rewrite rev_app_distr; apply expandable_rev_app. Qed.

Lemma broadcast_shapes_refl (a : Size) : broadcast_shapes a a = Some a.
Proof. apply expandable_broadcast, expandable_refl. Qed.

Lemma bidx_absorb (a c : Size) (i : Index) :
  expandable a c = true -> bidx a (bidx c i) = bidx a i.
Proof.
  unfold bidx, expandable; intros H.
  now rewrite rev_involutive, bidx_rev_absorb.
Qed.

Lemma bidx_in_range (s : Size) (i : Index) :
  in_range s i = true -> bidx s i = i.
Proof.
  unfold bidx; intros H; rewrite <- in_range_rev in H.
  rewrite <- (app_nil_r (rev i)), (bidx_rev_in_range _ _ _ H).
  apply rev_involutive.
Qed.

Lemma bidx_app (b : Size) (i j : Index) :
  in_range b j = true -> bidx b (i ++ j) = j.
Proof.
  unfold bidx; intros H; rewrite <- in_range_rev in H.
  rewrite rev_app_distr, (bidx_rev_in_range _ _ _ H).
  apply rev_involutive.
Qed.

Lemma in_range_bidx (a c : Size) (i : Index) :
  expandable a c = true -> in_range c i = true ->
  in_range a (bidx a i) = true.
Proof.
  unfold bidx, expandable; intros H Hi.
  rewrite <- in_range_rev, rev_involutive.
  apply in_range_bidx_rev with (c := rev c); auto.
  now rewrite in_range_rev.
Qed.

(** ** Elementwise operations *)

Lemma bget_in_range {A : Type} (t : Tensor A) (i : Index) :
  in_range (shape t) i = true -> bget t i = elem t i.
Proof. intros H; unfold bget; now rewrite bidx_in_range. Qed.

Lemma map2_spec {A B C : Type} (f : A -> B -> C) (a : Tensor A) (b : Tensor B)
    (s : Size) :
  broadcast_shapes (shape a) (shape b) = Some s ->
  exists c, map2 f a b = Ok c /\ shape c = s /\
            forall i, bget c i = f (bget a i) (bget b i).
Proof.
  intros H; unfold map2; rewrite H.
  eexists; split; [reflexivity|]; split; [reflexivity|].
  destruct (broadcast_shapes_expandable _ _ _ H) as [Ha Hb].
  intros i; unfold bget; simpl.
  now rewrite (bidx_absorb _ _ _ Ha), (bidx_absorb _ _ _ Hb).
Qed.

Lemma map3_spec {A B C D : Type} (f : A -> B -> C -> D)
    (a : Tensor A) (b : Tensor B) (c : Tensor C) (s1 s : Size) :
  broadcast_shapes (shape a) (shape b) = Some s1 ->
  broadcast_shapes s1 (shape c) = Some s ->
  exists d, map3 f a b c = Ok d /\ shape d = s /\
            forall i, bget d i = f (bget a i) (bget b i) (bget c i).
Proof.
  intros H1 H2; unfold map3; rewrite H1, H2.
  eexists; split; [reflexivity|]; split; [reflexivity|].
  destruct (broadcast_shapes_expandable _ _ _ H1) as [Ha Hb].
  destruct (broadcast_shapes_expandable _ _ _ H2) as [H1s Hc].
  intros i; unfold bget; simpl.
  rewrite (bidx_absorb _ _ _ (expandable_trans _ _ _ Ha H1s)).
  rewrite (bidx_absorb _ _ _ (expandable_trans _ _ _ Hb H1s)).
  now rewrite (bidx_absorb _ _ _ Hc).
Qed.

Lemma map1_bget {A B : Type} (f : A -> B) (a : Tensor A) (i : Index) :
  bget (map1 f a) i = f (bget a i).
Proof. reflexivity. Qed.

Lemma tensor_expand_spec {A : Type} (t : Tensor A) (s : Size) :
  expandable (shape t) s = true ->
  exists c, tensor_expand t s = Ok c /\ shape c = s /\
            forall i, bget c i = bget t i.
Proof.
  intros H; unfold tensor_expand; rewrite H.
  eexists; split; [reflexivity|]; split; [reflexivity|].
  intros i; unfold bget; simpl. now rewrite (bidx_absorb _ _ _ H).
Qed.

Lemma broadcast_rev_comm (a b : list nat) :
  broadcast_rev a b = broadcast_rev b a.
Proof.
  revert b; induction a as [|x a IH]; intros [|y b]; simpl; auto.
  rewrite IH; destruct (broadcast_rev b a); auto.
  rewrite (Nat.eqb_sym y x).
  destruct (x =? y)%nat eqn:E; [apply Nat.eqb_eq in E; now subst|].
  destruct (x =? 1)%nat eqn:Ex, (y =? 1)%nat eqn:Ey; auto.
  apply Nat.eqb_eq in Ex, Ey; apply Nat.eqb_neq in E; lia.
Qed.

Lemma broadcast_shapes_comm (a b : Size) :
  broadcast_shapes a b = broadcast_shapes b a.
Proof. unfold broadcast_shapes; now rewrite broadcast_rev_comm. Qed.

Lemma broadcast_shapes_nil_l (a : Size) : broadcast_shapes [] a = Some a.
Proof. apply expandable_broadcast, expandable_nil. Qed.

Lemma broadcast_shapes_nil_r (a : Size) : broadcast_shapes a [] = Some a.
Proof. apply expandable_broadcast, expandable_nil. Qed.

Lemma bcast_intro (v b s : Size) : broadcast_shapes v b = Some s -> bcast v b s.
Proof.
  intros H. destruct (broadcast_shapes_expandable _ _ _ H) as [Hv Hb].
  destruct (expandable_broadcast _ _ Hv), (expandable_broadcast _ _ Hb).
  constructor; auto. now rewrite broadcast_shapes_comm.
Qed.

Lemma bget_scalar_tensor {A : Type} (x : A) (i : Index) :
  bget (scalar_tensor x) i = x.
Proof. reflexivity. Qed.

Lemma bget_ones_like (t : Tensor scalar) (i : Index) :
  bget (ones_like t) i = Real 1.
Proof. reflexivity. Qed.

Lemma bget_zeros_like (t : Tensor scalar) (i : Index) :
  bget (zeros_like t) i = Real 0.
Proof. reflexivity. Qed.

(** *** Stepping through a method body *)

Ltac shapes :=
  simpl;
  repeat match goal with
  | H : shape _ = _ |- _ => rewrite H
  end.

Ltac solve_bs :=
  shapes;
  first [ eassumption
        | apply broadcast_shapes_refl
        | apply broadcast_shapes_nil_l
        | apply broadcast_shapes_nil_r ].

Ltac unfold_ops :=
  unfold t_add, t_sub, t_mul, t_div, t_lt, t_le, t_gt, t_ge, t_and, t_or,
         torch_where, torch_log, tensor_log, torch_tensor.

(** One operation of the body: name its result, record its shape and its
    elements, and continue with the rest. *)
Ltac step :=
  lazymatch goal with
  | |- context [bind (map2 ?f ?a ?b) _] =>
      let H := fresh "Hb" in
      let c := fresh "t" in
      let Hc := fresh "Hc" in
      let Hs := fresh "Hs" in
      let Hg := fresh "Hg" in
      eassert (H : broadcast_shapes (shape a) (shape b) = Some _) by solve_bs;
      destruct (map2_spec f a b _ H) as (c & Hc & Hs & Hg);
      rewrite Hc; clear Hc H; cbn [bind]
  | |- context [bind (map3 ?f ?a ?b ?c) _] =>
      let H1 := fresh "Hb" in
      let H2 := fresh "Hb" in
      let d := fresh "t" in
      let Hc := fresh "Hc" in
      let Hs := fresh "Hs" in
      let Hg := fresh "Hg" in
      eassert (H1 : broadcast_shapes (shape a) (shape b) = Some _) by solve_bs;
      lazymatch type of H1 with
      | _ = Some ?s1 =>
          eassert (H2 : broadcast_shapes s1 (shape c) = Some _) by solve_bs
      end;
      destruct (map3_spec f a b c _ _ H1 H2) as (d & Hc & Hs & Hg);
      rewrite Hc; clear Hc H1 H2; cbn [bind]
  end.

Ltac last_step :=
  lazymatch goal with
  | |- exists t, map2 ?f ?a ?b = Ok t /\ _ =>
      let H := fresh "Hb" in
      let c := fresh "t" in
      let Hc := fresh "Hc" in
      let Hs := fresh "Hs" in
      let Hg := fresh "Hg" in
      eassert (H : broadcast_shapes (shape a) (shape b) = Some _) by solve_bs;
      destruct (map2_spec f a b _ H) as (c & Hc & Hs & Hg);
      exists c; split; [exact Hc|]; clear Hc H
  | |- exists t, map3 ?f ?a ?b ?c = Ok t /\ _ =>
      let H1 := fresh "Hb" in
      let H2 := fresh "Hb" in
      let d := fresh "t" in
      let Hc := fresh "Hc" in
      let Hs := fresh "Hs" in
      let Hg := fresh "Hg" in
      eassert (H1 : broadcast_shapes (shape a) (shape b) = Some _) by solve_bs;
      lazymatch type of H1 with
      | _ = Some ?s1 =>
          eassert (H2 : broadcast_shapes s1 (shape c) = Some _) by solve_bs
      end;
      destruct (map3_spec f a b c _ _ H1 H2) as (d & Hc & Hs & Hg);
      exists d; split; [exact Hc|]; clear Hc H1 H2
  end.

Ltac elems :=
  repeat first
    [ rewrite map1_bget
    | rewrite bget_scalar_tensor
    | rewrite bget_ones_like
    | rewrite bget_zeros_like
    | match goal with
      | H : forall i, bget _ i = _ |- _ => rewrite H
      end ].

(** ** The density, elementwise *)

Lemma log_prob_elem (self : Triangular) (value : Tensor scalar) (s : Size) :
  wf self ->
  broadcast_shapes (shape value) (_batch_shape self) = Some s ->
  exists t, log_prob self value = Ok t /\ shape t = s /\
    forall i, bget t i =
      log_prob_at (bget (low self) i) (bget (high self) i)
                  (bget (peak self) i) (bget value i).
Proof.
  intros (Hl & Hh & Hp & _) Hvb.
  destruct (bcast_intro _ _ _ Hvb) as [H1 H2 H3 H4 H5 H6].
  unfold log_prob; unfold_ops.
  do 25 (cbn [bind]; try step).
  last_step. split; [assumption|].
  intros i; elems. reflexivity.
Qed.

(** ** The cumulative distribution, elementwise *)

Lemma cdf_elem (self : Triangular) (value : Tensor scalar) (s : Size) :
  wf self ->
  broadcast_shapes (shape value) (_batch_shape self) = Some s ->
  exists t, cdf self value = Ok t /\ shape t = s /\
    forall i, bget t i =
      cdf_at (bget (low self) i) (bget (high self) i)
             (bget (peak self) i) (bget value i).
Proof.
  intros (Hl & Hh & Hp & _) Hvb.
  destruct (bcast_intro _ _ _ Hvb) as [H1 H2 H3 H4 H5 H6].
  unfold cdf; unfold_ops; unfold t_pow.
  do 20 (cbn [bind]; try step).
  last_step. split; [assumption|].
  intros i; elems. reflexivity.
Qed.

(** ** The sampling transform, elementwise *)

Lemma rsample_elem (self : Triangular) (rand : Index -> R) (sample_shape : Size) :
  wf self ->
  exists t, rsample self rand sample_shape = Ok t /\
    shape t = (sample_shape ++ _batch_shape self)%list /\
    forall i, in_range (sample_shape ++ _batch_shape self) i = true ->
      elem t i =
        rsample_at (bget (low self) i) (bget (high self) i)
                   (bget (peak self) i) (Real (rand i)).
Proof.
  intros (Hl & Hh & Hp & He).
  assert (Hvb : broadcast_shapes (sample_shape ++ _batch_shape self)
                                 (_batch_shape self)
                = Some (sample_shape ++ _batch_shape self)%list)
    by apply expandable_broadcast, expandable_app.
  destruct (bcast_intro _ _ _ Hvb) as [H1 H2 H3 H4 H5 H6].
  unfold rsample, _extended_shape; rewrite He, app_nil_r.
  set (samples := uniform_rsample _ _ _).
  assert (Hsm : shape samples = (sample_shape ++ _batch_shape self)%list)
    by reflexivity.
  assert (Hgm : forall i, in_range (sample_shape ++ _batch_shape self) i = true ->
                          bget samples i = Real (rand i)).
  { intros i Hi; unfold bget; rewrite Hsm, (bidx_in_range _ _ Hi); reflexivity. }
  clearbody samples.
  unfold_ops; unfold torch_sqrt.
  do 20 (cbn [bind]; try step).
  last_step. split; [assumption|].
  intros i Hi.
  match goal with
  | H : shape ?t = _ |- elem ?t i = _ =>
      rewrite <- (bget_in_range t i) by (rewrite H; exact Hi)
  end.
  elems. rewrite (Hgm i Hi). reflexivity.
Qed.

(** ** Construction *)

Lemma broadcast_all_spec (a b c : pyobj) (s1 s : Size) :
  broadcast_shapes (shape (as_tensor a)) (shape (as_tensor b)) = Some s1 ->
  broadcast_shapes s1 (shape (as_tensor c)) = Some s ->
  exists l h p, broadcast_all a b c = Ok (l, h, p) /\
    shape l = s /\ shape h = s /\ shape p = s /\
    (forall i, bget l i = bget (as_tensor a) i) /\
    (forall i, bget h i = bget (as_tensor b) i) /\
    (forall i, bget p i = bget (as_tensor c) i).
Proof.
  intros H1 H2; unfold broadcast_all; rewrite H1, H2.
  destruct (broadcast_shapes_expandable _ _ _ H1) as [Ha Hb].
  destruct (broadcast_shapes_expandable _ _ _ H2) as [Hs Hc].
  destruct (tensor_expand_spec (as_tensor a) s) as (l & -> & Hl & Hgl);
    [eapply expandable_trans; eauto|].
  destruct (tensor_expand_spec (as_tensor b) s) as (h & -> & Hh & Hgh);
    [eapply expandable_trans; eauto|].
  destruct (tensor_expand_spec (as_tensor c) s) as (p & -> & Hp & Hgp);
    [assumption|].
  exists l, h, p; cbn [bind]; auto 10.
Qed.

Lemma broadcast_all_shapes (a b c : pyobj) (l h p : Tensor scalar) :
  broadcast_all a b c = Ok (l, h, p) ->
  shape h = shape l /\ shape p = shape l /\
  (is_number a && is_number b && is_number c = true -> shape l = []).
Proof.
  unfold broadcast_all, tensor_expand.
  destruct (broadcast_shapes _ _) as [s1|] eqn:H1; [|discriminate].
  destruct (broadcast_shapes s1 _) as [s|] eqn:H2; [|discriminate].
  destruct (expandable _ s); [|discriminate]; cbn [bind].
  destruct (expandable _ s); [|discriminate]; cbn [bind].
  destruct (expandable _ s); [|discriminate]; cbn [bind].
  intros [= <- <- <-]; simpl; repeat split.
  destruct a, b, c; try discriminate; intros _.
  simpl in H1; injection H1 as <-. simpl in H2; now injection H2 as <-.
Qed.

Lemma check_all (f : scalar -> scalar -> bool) (a b : Tensor scalar) :
  shape b = shape a ->
  exists c, map2 f a b = Ok c /\
    (tensor_all c = false <->
     exists i, in_range (shape a) i = true /\ f (elem a i) (elem b i) = false).
Proof.
  intros Hb.
  destruct (map2_spec f a b (shape a)) as (c & Hc & Hs & Hg);
    [rewrite Hb; apply broadcast_shapes_refl|].
  exists c; split; [assumption|].
  rewrite tensor_all_false, Hs.
  split; intros (i & Hi & Hf); exists i; split; auto.
  - rewrite <- (bget_in_range a), <- (bget_in_range b), <- Hg, bget_in_range;
      rewrite ?Hs, ?Hb; auto.
  - rewrite <- (bget_in_range c), Hg, !bget_in_range; rewrite ?Hs, ?Hb; auto.
Qed.

Lemma tensor_all_negb (c : Tensor bool) (P : Prop) :
  (tensor_all c = false <-> P) -> ~ P -> negb (tensor_all c) = false.
Proof. intros H N; destruct (tensor_all c); auto. exfalso; apply N, H; auto. Qed.

Section Construction.

Variable default_validate_args : bool.
Variable constraints_real : scalar -> bool.
Variable invalid_low : Tensor scalar -> string.

Lemma init_wf (lo hi pk : pyobj) (va : option bool) (d : Triangular) :
  __init__ default_validate_args constraints_real invalid_low lo hi pk va = Ok d -> wf d.
Proof.
  unfold __init__.
  destruct (broadcast_all lo hi pk) as [[[l h] p]|] eqn:E; [|discriminate].
  cbn [bind]. destruct (broadcast_all_shapes _ _ _ _ _ _ E) as (Hh & Hp & Hn).
  assert (W : wf (super_init l h p
                    (if is_number lo && is_number hi && is_number pk
                     then [] else shape l) [] va)).
  { unfold wf; simpl. destruct (is_number lo && is_number hi && is_number pk).
    - rewrite Hh, Hp, Hn; auto.
    - rewrite Hh, Hp; auto. }
  destruct (validation_enabled _ _); [|now intros [= <-]].
  destruct (negb _); [discriminate|].
  destruct (t_lt l h); [|discriminate]; cbn [bind].
  destruct (negb _); [discriminate|].
  destruct (t_le l p); [|discriminate]; cbn [bind].
  destruct (negb _); [discriminate|].
  destruct (t_le p h); [|discriminate]; cbn [bind].
  destruct (negb _); [discriminate|].
  now intros [= <-].
Qed.

Lemma init_no_validation (lo hi pk : pyobj) (va : option bool)
    (l h p : Tensor scalar) :
  broadcast_all lo hi pk = Ok (l, h, p) ->
  validation_enabled default_validate_args va = false ->
  __init__ default_validate_args constraints_real invalid_low lo hi pk va =
    Ok (super_init l h p
          (if is_number lo && is_number hi && is_number pk then [] else shape l)
          [] va).
Proof. intros E V; unfold __init__; rewrite E; cbn [bind]; now rewrite V. Qed.

End Construction.

(** ** The methods on real parameters *)

Lemma s_sub_real (a b : R) : s_sub (Real a) (Real b) = Real (a - b).
Proof. reflexivity. Qed.

Lemma s_div_real (a b : R) : b <> 0 -> s_div (Real a) (Real b) = Real (a / b).
Proof. intros H; simpl. now apply Reqb_false in H as ->. Qed.

Lemma s_sqrt_real (a : R) : 0 <= a -> s_sqrt (Real a) = Real (sqrt a).
Proof. intros H; simpl. rcases; auto; lra. Qed.

Lemma s_log_real (a : R) : 0 < a -> s_log (Real a) = Real (ln a).
Proof. intros H; simpl. rcases; auto; lra. Qed.

Lemma s_log_zero (a : R) : a = 0 -> s_log (Real a) = NegInf.
Proof. intros H; simpl. rcases; auto; lra. Qed.

Lemma log_floor : s_log (s_mul (Real 1) c_floor) = Real (ln (1 / 1000000)).
Proof.
  unfold c_floor; simpl s_mul. rewrite Rmult_1_l. apply s_log_real; lra.
Qed.

(** The sampling transform on reals. *)
Lemma rsample_at_real (l h p u : R) :
  l < h -> l <= p <= h -> 0 <= u < 1 ->
  rsample_at (Real l) (Real h) (Real p) (Real u) =
    Real (if Rlt_dec u ((p - l) / (h - l))
          then l + sqrt (u * (h - l) * (p - l))
          else h - sqrt ((1 - u) * (h - l) * (h - p))).
Proof.
  intros Hlh Hp Hu.
  unfold rsample_at, rsample_left, rsample_right, c_one.
  rewrite !s_sub_real, s_div_real by lra.
  simpl s_mul. simpl s_lt. unfold Rltb.
  rewrite !s_sqrt_real
    by (apply Rmult_le_pos; [apply Rmult_le_pos|]; lra).
  now destruct (Rlt_dec u ((p - l) / (h - l))).
Qed.

Lemma rsample_at_bounds (l h p u : R) :
  l < h -> l <= p <= h -> 0 <= u < 1 ->
  exists r, rsample_at (Real l) (Real h) (Real p) (Real u) = Real r /\
            l <= r <= h.
Proof.
  intros Hlh Hp Hu. rewrite rsample_at_real by assumption.
  eexists; split; [reflexivity|].
  assert (Hi : 0 < / (h - l)) by (apply Rinv_0_lt_compat; lra).
  assert (Hd : (h - l) * / (h - l) = 1) by (field; lra).
  destruct (Rlt_dec u ((p - l) / (h - l))) as [Hc|Hc].
  - (* left leg: u (h - l) < p - l *)
    assert (Hul : u * (h - l) < p - l).
    { unfold Rdiv in Hc. nra. }
    assert (Hs : sqrt (u * (h - l) * (p - l)) <= p - l).
    { rewrite <- (sqrt_square (p - l)) at 2 by lra.
      apply sqrt_le_1_alt. nra. }
    pose proof (sqrt_pos (u * (h - l) * (p - l))). lra.
  - (* right leg: p - l <= u (h - l) *)
    assert (Hul : p - l <= u * (h - l)).
    { apply Rnot_lt_le in Hc. unfold Rdiv in Hc. nra. }
    assert (Hs : sqrt ((1 - u) * (h - l) * (h - p)) <= h - p).
    { rewrite <- (sqrt_square (h - p)) at 2 by lra.
      apply sqrt_le_1_alt. nra. }
    pose proof (sqrt_pos ((1 - u) * (h - l) * (h - p))). lra.
Qed.

(** The cumulative distribution on reals, with the peak strictly inside. *)
Lemma cdf_at_real (l h p v : R) :
  l < p < h ->
  exists c, cdf_at (Real l) (Real h) (Real p) (Real v) = Real c /\
    (h <= v -> c = 1) /\
    (v <= l -> c = 0) /\
    (l < v <= p -> c = (v - l) * (v - l) / ((h - l) * (p - l))) /\
    (p < v < h -> c = 1 - (h - v) * (h - v) / ((h - l) * (h - p))).
Proof.
  intros Hp.
  unfold cdf_at, cdf_inside, cdf_left, cdf_right, s_ge, s_gt, c_one.
  rewrite !s_sub_real. simpl s_pow. simpl s_mul. simpl s_le. simpl s_lt.
  rewrite !s_div_real by nra. rewrite !s_sub_real, !Rmult_1_r.
  destruct (Rleb h v) eqn:E1; [|destruct (Rleb v l) eqn:E2;
    [|destruct (Rltb l v && Rleb v p) eqn:E3]];
    eexists; (split; [reflexivity|]); rcases;
    repeat split; intros; try lra;
    try (apply andb_prop in E3 as [? ?]); rcases; try lra.
  apply andb_false_iff in E3 as [E3|E3]; rcases; lra.
Qed.

Lemma Rdiv_le_1 (x d : R) : 0 < d -> x <= d -> x / d <= 1.
Proof.
  intros Hd Hx. unfold Rdiv.
  assert (Hi : 0 < / d) by now apply Rinv_0_lt_compat.
  assert (H1 : d * / d = 1) by (field; lra).
  nra.
Qed.

Lemma Rdiv_le_mono (x y d : R) : 0 < d -> x <= y -> x / d <= y / d.
Proof.
  intros Hd Hx. unfold Rdiv.
  assert (Hi : 0 < / d) by now apply Rinv_0_lt_compat.
  nra.
Qed.

Lemma Rdiv_nonneg (x d : R) : 0 < d -> 0 <= x -> 0 <= x / d.
Proof.
  intros Hd Hx. unfold Rdiv.
  assert (Hi : 0 < / d) by now apply Rinv_0_lt_compat.
  nra.
Qed.

Lemma cdf_at_monotone (l h p a b : R) :
  l < p < h -> l <= a -> a <= b -> b <= h ->
  exists ca cb,
    cdf_at (Real l) (Real h) (Real p) (Real a) = Real ca /\
    cdf_at (Real l) (Real h) (Real p) (Real b) = Real cb /\
    ca <= cb.
Proof.
  intros Hp Hla Hab Hbh.
  destruct (cdf_at_real l h p a Hp) as (ca & Ea & A1 & A2 & A3 & A4).
  destruct (cdf_at_real l h p b Hp) as (cb & Eb & B1 & B2 & B3 & B4).
  exists ca, cb; split; [assumption|]; split; [assumption|].
  assert (D1 : 0 < (h - l) * (p - l)) by (apply Rmult_lt_0_compat; lra).
  assert (D2 : 0 < (h - l) * (h - p)) by (apply Rmult_lt_0_compat; lra).
  (* the two legs meet at the peak *)
  assert (Hmeet : (p - l) * (p - l) / ((h - l) * (p - l)) =
                  1 - (h - p) * (h - p) / ((h - l) * (h - p)))
    by (field; lra).
  assert (left_le_1 : forall v, l <= v <= p ->
            (v - l) * (v - l) / ((h - l) * (p - l)) <= 1).
  { intros v Hv. apply Rdiv_le_1; [assumption|].
    apply Rmult_le_compat; lra. }
  assert (right_ge_0 : forall v, p <= v <= h ->
            0 <= 1 - (h - v) * (h - v) / ((h - l) * (h - p))).
  { intros v Hv.
    assert ((h - v) * (h - v) / ((h - l) * (h - p)) <= 1); [|lra].
    apply Rdiv_le_1; [assumption|]. apply Rmult_le_compat; lra. }
  assert (left_mono : forall v w, l <= v -> v <= w ->
            (v - l) * (v - l) / ((h - l) * (p - l)) <=
            (w - l) * (w - l) / ((h - l) * (p - l))).
  { intros v w Hv Hw. apply Rdiv_le_mono; [assumption|].
    apply Rmult_le_compat; lra. }
  assert (right_mono : forall v w, v <= w -> w <= h ->
            1 - (h - v) * (h - v) / ((h - l) * (h - p)) <=
            1 - (h - w) * (h - w) / ((h - l) * (h - p))).
  { intros v w Hv Hw.
    assert ((h - w) * (h - w) / ((h - l) * (h - p)) <=
            (h - v) * (h - v) / ((h - l) * (h - p))); [|lra].
    apply Rdiv_le_mono; [assumption|]. apply Rmult_le_compat; lra. }
  assert (left_ge_0 : forall v,
            0 <= (v - l) * (v - l) / ((h - l) * (p - l))).
  { intros v. apply Rdiv_nonneg; [assumption|]. apply Rle_0_sqr. }
  assert (right_le_1 : forall v,
            1 - (h - v) * (h - v) / ((h - l) * (h - p)) <= 1).
  { intros v.
    assert (0 <= (h - v) * (h - v) / ((h - l) * (h - p))); [|lra].
    apply Rdiv_nonneg; [assumption|]. apply Rle_0_sqr. }
  destruct (Rle_dec h b) as [Hb|Hb].
  - (* b = h *)
    rewrite (B1 Hb).
    destruct (Rle_dec h a); [rewrite A1; lra|].
    destruct (Rle_dec a l); [rewrite A2; lra|].
    destruct (Rle_dec a p).
    + rewrite A3 by lra. apply left_le_1; lra.
    + rewrite A4 by lra. apply right_le_1.
  - destruct (Rle_dec a l) as [Ha|Ha].
    + (* a = l *)
      rewrite (A2 Ha).
      destruct (Rle_dec b l); [rewrite B2; lra|].
      destruct (Rle_dec b p).
      * rewrite B3 by lra. apply left_ge_0.
      * rewrite B4 by lra. apply right_ge_0; lra.
    + destruct (Rle_dec b p) as [Hbp|Hbp].
      * rewrite A3, B3 by lra. apply left_mono; lra.
      * rewrite B4 by lra.
        destruct (Rle_dec a p).
        -- rewrite A3 by lra.
           apply Rle_trans with ((p - l) * (p - l) / ((h - l) * (p - l))).
           ++ apply left_mono; lra.
           ++ rewrite Hmeet. apply right_mono; lra.
        -- rewrite A4 by lra. apply right_mono; lra.
Qed.

Lemma s_le_lt_trans (x y z : scalar) :
  s_le x y = true -> s_lt y z = true -> s_lt x z = true.
Proof.
  destruct x, y, z; simpl; intros H1 H2; try discriminate; auto.
  rcases; try reflexivity; lra.
Qed.

(** ** The elementwise computations over an arithmetic *)

(** Without rounding they are the elements that the tensor programs
    compute ([rsample_elem], [cdf_elem]). *)
Lemma rsample_elementwise_exact (l h p u : scalar) :
  rsample_elementwise exact l h p u = rsample_at l h p u.
Proof. reflexivity. Qed.

Lemma cdf_elementwise_exact (l h p v : scalar) :
  cdf_elementwise exact l h p v = cdf_at l h p v.
Proof. reflexivity. Qed.

(** In single precision [x - x] is a zero or NaN, and so is its
    quotient by any float: 0 is never below it. *)
Lemma binary32_zero_not_below (l d : spec_float) :
  SFltb (f32 0 0) (SFdiv 24 128 (SFsub 24 128 l l) d) = false.
Proof.
  assert (Z : SFsub 24 128 l l = S754_nan \/
              exists s, SFsub 24 128 l l = S754_zero s).
  { destruct l as [s|s| |s m e].
    - right. destruct s; simpl; eauto.
    - left. destruct s; reflexivity.
    - left. reflexivity.
    - right. exists false. unfold SFsub. cbv zeta.
      now rewrite Z.sub_diag. }
  destruct Z as [-> | (s & ->)]; [reflexivity|].
  destruct d; reflexivity.
Qed.

(** * Properties of the class *)

(** C1.  Density.  At an element where the parameters are valid
    ([low < high], [low <= peak <= high]), [log_prob] is
    [log 2 + log (value - low) - log (high - low) - log (peak - low)] when
    [low <= value <= peak], it is
    [log 2 + log (high - value) - log (high - low) - log (high - peak)]
    when [peak < value <= high], and it is [log 1e-6] when [value < low]
    or [value > high].  The floor is applied last and only there: a value
    that is neither below [low] nor above [high] gets the value of the
    inside branch, and [value = peak] falls in the first branch. *)
Theorem log_prob_piecewise (self : Triangular) (value : Tensor scalar)
    (s : Size) (i : Index) (l h p v : scalar) :
  wf self ->
  broadcast_shapes (shape value) (_batch_shape self) = Some s ->
  in_range s i = true ->
  bget (low self) i = l -> bget (high self) i = h ->
  bget (peak self) i = p -> bget value i = v ->
  s_lt l h = true -> s_le l p = true -> s_le p h = true ->
  exists t, log_prob self value = Ok t /\ shape t = s /\
    (s_le l v = true -> s_le v p = true ->
     elem t i = (s_log (Real 2) + s_log (v - l) - s_log (h - l) - s_log (p - l))%S) /\
    (s_lt p v = true -> s_le v h = true ->
     elem t i = (s_log (Real 2) + s_log (h - v) - s_log (h - l) - s_log (h - p))%S) /\
    (s_lt v l = true \/ s_lt h v = true ->
     elem t i = Real (ln (1 / 1000000))) /\
    (s_lt v l = false -> s_lt h v = false ->
     elem t i =
       if s_le l v && s_le v p
       then (s_log (Real 2) + s_log (v - l) - s_log (h - l) - s_log (p - l))%S
       else (s_log (Real 2) + s_log (h - v) - s_log (h - l) - s_log (h - p))%S).
Proof.
  intros W Hb Hi <- <- <- <- Hlh Hlp Hph.
  destruct (log_prob_elem self value s W Hb) as (t & Ht & Hs & Hg).
  exists t; split; [assumption|]; split; [assumption|].
  rewrite <- (bget_in_range t i) by (rewrite Hs; exact Hi).
  rewrite Hg. unfold log_prob_at, s_gt, s_ge.
  set (l := bget (low self) i) in *. set (h := bget (high self) i) in *.
  set (p := bget (peak self) i) in *. set (v := bget value i) in *.
  repeat split.
  - intros Hlv Hvp.
    rewrite (s_le_not_lt _ _ Hlv).
    rewrite (s_le_not_lt _ _ (s_le_trans _ _ _ Hvp Hph)).
    now rewrite Hlv, Hvp.
  - intros Hpv Hvh.
    rewrite (s_le_not_lt _ _ (s_lt_le _ _ (s_le_lt_trans _ _ _ Hlp Hpv))).
    rewrite (s_le_not_lt _ _ Hvh), (s_lt_not_le _ _ Hpv).
    now rewrite andb_false_r.
  - intros [H|H]; rewrite H, ?orb_true_r; apply log_floor.
  - intros H1 H2; rewrite H1, H2; reflexivity.
Qed.

(** C3.  Cumulative distribution.  The interior piecewise value is
    overridden by 0 where [value <= low], and that by 1 where
    [value >= high], the later clamp winning; in particular [cdf low] is 0
    and [cdf high] is 1 at every element with valid parameters. *)
Theorem cdf_clamps (self : Triangular) (value : Tensor scalar)
    (s : Size) (i : Index) (l h p v : scalar) :
  wf self ->
  broadcast_shapes (shape value) (_batch_shape self) = Some s ->
  in_range s i = true ->
  bget (low self) i = l -> bget (high self) i = h ->
  bget (peak self) i = p -> bget value i = v ->
  s_lt l h = true -> s_le l p = true -> s_le p h = true ->
  (exists t, cdf self value = Ok t /\ shape t = s /\
     (s_le h v = true -> elem t i = Real 1) /\
     (s_le h v = false -> s_le v l = true -> elem t i = Real 0) /\
     (s_le h v = false -> s_le v l = false ->
      elem t i =
        if s_lt l v && s_le v p
        then (s_pow (v - l) 2 / ((h - l) * (p - l)))%S
        else (Real 1 - s_pow (h - v) 2 / ((h - l) * (h - p)))%S)) /\
  (forall j, in_range (_batch_shape self) j = true ->
     s_lt (elem (low self) j) (elem (high self) j) = true ->
     exists tl th,
       cdf self (low self) = Ok tl /\ elem tl j = Real 0 /\
       cdf self (high self) = Ok th /\ elem th j = Real 1).
Proof.
  intros W Hb Hi <- <- <- <- Hlh Hlp Hph. split.
  - destruct (cdf_elem self value s W Hb) as (t & Ht & Hs & Hg).
    exists t; split; [assumption|]; split; [assumption|].
    rewrite <- (bget_in_range t i) by (rewrite Hs; exact Hi).
    rewrite Hg. unfold cdf_at, cdf_inside, s_gt, s_ge.
    repeat split.
    + now intros ->.
    + now intros -> ->.
    + now intros -> ->.
  - intros j Hj Hlt. destruct W as (Wl & Wh & Wp & We).
    assert (W : wf self) by (repeat split; assumption).
    destruct (cdf_elem self (low self) (_batch_shape self) W) as (tl & Htl & Hsl & Hgl);
      [rewrite Wl; apply broadcast_shapes_refl|].
    destruct (cdf_elem self (high self) (_batch_shape self) W) as (th & Hth & Hsh & Hgh);
      [rewrite Wh; apply broadcast_shapes_refl|].
    exists tl, th.
    rewrite <- (bget_in_range tl j), <- (bget_in_range th j)
      by (rewrite ?Hsl, ?Hsh; exact Hj).
    rewrite Hgl, Hgh, !bget_in_range by (rewrite ?Wl, ?Wh; exact Hj).
    repeat split; auto; unfold cdf_at, s_ge.
    + now rewrite (s_lt_not_le _ _ Hlt), (s_le_refl_l _ _ (s_lt_le _ _ Hlt)).
    + now rewrite (s_le_refl_r _ _ (s_lt_le _ _ Hlt)).
Qed.

(** C10.  With real parameters, [low < high], [low <= peak <= high]:
    when [peak > low], [log_prob low] is not the floor [log 1e-6];
    [value = low] is neither below [low] nor above [high], the inside
    branch gives [log 2 + log 0 - log (high - low) - log (peak - low)],
    and that is minus infinity.  Symmetrically [log_prob high] is minus
    infinity when [peak < high]. *)
Theorem log_prob_at_the_bounds (self : Triangular) (i : Index) (l h p : R) :
  wf self ->
  in_range (_batch_shape self) i = true ->
  bget (low self) i = Real l -> bget (high self) i = Real h ->
  bget (peak self) i = Real p ->
  l < h -> l <= p <= h ->
  exists tl th,
    log_prob self (low self) = Ok tl /\
    log_prob self (high self) = Ok th /\
    (l < p ->
     elem tl i = (s_log (Real 2) + s_log (Real l - Real l)
                  - s_log (Real h - Real l) - s_log (Real p - Real l))%S /\
     s_log (Real l - Real l) = NegInf /\
     elem tl i = NegInf /\
     elem tl i <> Real (ln (1 / 1000000))) /\
    (p < h ->
     elem th i = (s_log (Real 2) + s_log (Real h - Real h)
                  - s_log (Real h - Real l) - s_log (Real h - Real p))%S /\
     s_log (Real h - Real h) = NegInf /\
     elem th i = NegInf /\
     elem th i <> Real (ln (1 / 1000000))).
Proof.
  intros W Hi El Eh Ep Hlh Hp.
  pose proof W as (Wl & Wh & Wp & We).
  destruct (log_prob_elem self (low self) (_batch_shape self) W) as (tl & Htl & Hsl & Hgl);
    [rewrite Wl; apply broadcast_shapes_refl|].
  destruct (log_prob_elem self (high self) (_batch_shape self) W) as (th & Hth & Hsh & Hgh);
    [rewrite Wh; apply broadcast_shapes_refl|].
  exists tl, th; split; [assumption|]; split; [assumption|].
  rewrite <- (bget_in_range tl i), <- (bget_in_range th i)
    by (rewrite ?Hsl, ?Hsh; exact Hi).
  rewrite Hgl, Hgh, El, Eh, Ep.
  assert (Z : forall x, s_log (Real x - Real x) = NegInf).
  { intros x; rewrite s_sub_real; apply s_log_zero; lra. }
  split; intros Hs.
  - assert (E : log_prob_at (Real l) (Real h) (Real p) (Real l) =
                (s_log (Real 2) + s_log (Real l - Real l)
                 - s_log (Real h - Real l) - s_log (Real p - Real l))%S).
    { unfold log_prob_at, s_gt, s_ge; simpl s_lt; simpl s_le.
      replace (Rltb l l) with false by (symmetry; apply Rltb_false; lra).
      replace (Rltb h l) with false by (symmetry; apply Rltb_false; lra).
      replace (Rleb l l) with true by (symmetry; apply Rleb_true; lra).
      replace (Rleb l p) with true by (symmetry; apply Rleb_true; lra).
      reflexivity. }
    assert (N : (s_log (Real 2) + s_log (Real l - Real l)
                 - s_log (Real h - Real l) - s_log (Real p - Real l))%S = NegInf).
    { rewrite Z, !s_sub_real, !s_log_real by lra. reflexivity. }
    rewrite E. repeat split; auto. rewrite N; discriminate.
  - assert (E : log_prob_at (Real l) (Real h) (Real p) (Real h) =
                (s_log (Real 2) + s_log (Real h - Real h)
                 - s_log (Real h - Real l) - s_log (Real h - Real p))%S).
    { unfold log_prob_at, s_gt, s_ge; simpl s_lt; simpl s_le.
      replace (Rltb h l) with false by (symmetry; apply Rltb_false; lra).
      replace (Rltb h h) with false by (symmetry; apply Rltb_false; lra).
      replace (Rleb h p) with false by (symmetry; apply Rleb_false; lra).
      rewrite andb_false_r. reflexivity. }
    assert (N : (s_log (Real 2) + s_log (Real h - Real h)
                 - s_log (Real h - Real l) - s_log (Real h - Real p))%S = NegInf).
    { rewrite Z, !s_sub_real, !s_log_real by lra. reflexivity. }
    rewrite E. repeat split; auto. rewrite N; discriminate.
Qed.


(** C9.  Computed without rounding, for valid real parameters and a
    uniform draw in [0,1), the sample lies in the closed interval
    [[low, high]].  (Computed in single precision it can fall below
    [low]: for [Triangular(1., 2.**26, 2.)] a draw of [2^-25] gives 0.) *)
Theorem rsample_within_support (self : Triangular) (rand : Index -> R)
    (sample_shape : Size) (i : Index) (l h p : R) :
  wf self ->
  in_range (sample_shape ++ _batch_shape self) i = true ->
  bget (low self) i = Real l -> bget (high self) i = Real h ->
  bget (peak self) i = Real p ->
  l < h -> l <= p <= h -> 0 <= rand i < 1 ->
  exists t r, rsample self rand sample_shape = Ok t /\
    elem t i = Real r /\ l <= r <= h.
Proof.
  intros W Hi El Eh Ep Hlh Hp Hu.
  destruct (rsample_elem self rand sample_shape W) as (t & Ht & Hs & Hg).
  destruct (rsample_at_bounds l h p (rand i) Hlh Hp Hu) as (r & Er & Hr).
  exists t, r; split; [assumption|].
  rewrite (Hg i Hi), El, Eh, Ep. auto.
Qed.

(** C8.  When [peak = low] (and [low < high]) and the uniform draw is 0,
    sampling does not fail: [0 < (peak - low) / (high - low)] is false, the
    second formula is selected, and the sample is
    [high - sqrt ((1 - 0) (high - low) (high - low))]; computed without
    rounding, that is [low].  In single precision too the second formula
    is the selected one, whatever the floats [low] and [high] are; its
    value need not be [low] there. *)
Theorem rsample_peak_at_low (self : Triangular) (rand : Index -> R)
    (sample_shape : Size) (i : Index) (l h : R) :
  wf self ->
  in_range (sample_shape ++ _batch_shape self) i = true ->
  bget (low self) i = Real l -> bget (high self) i = Real h ->
  bget (peak self) i = Real l -> rand i = 0 ->
  l < h ->
  (exists t, rsample self rand sample_shape = Ok t /\
     s_lt (Real 0) ((Real l - Real l) / (Real h - Real l))%S = false /\
     elem t i = (Real h - s_sqrt ((Real 1 - Real 0) * (Real h - Real l)
                                   * (Real h - Real l)))%S /\
     elem t i = Real l) /\
  (forall low32 high32 : spec_float,
     SFltb (f32 0 0)
           (SFdiv 24 128 (SFsub 24 128 low32 low32)
                         (SFsub 24 128 high32 low32)) = false /\
     rsample_elementwise binary32 low32 high32 low32 (f32 0 0) =
     SFsub 24 128 high32
       (SFsqrt 24 128
          (SFmul 24 128
             (SFmul 24 128 (SFsub 24 128 (f32 1 0) (f32 0 0))
                           (SFsub 24 128 high32 low32))
             (SFsub 24 128 high32 low32)))).
Proof.
  intros W Hi El Eh Ep Eu Hlh. split.
  - destruct (rsample_elem self rand sample_shape W) as (t & Ht & Hs & Hg).
    exists t; split; [assumption|].
    rewrite (Hg i Hi), El, Eh, Ep, Eu.
    assert (C : s_lt (Real 0) ((Real l - Real l) / (Real h - Real l))%S = false).
    { rewrite !s_sub_real, s_div_real by lra. simpl. apply Rltb_false.
      unfold Rdiv. rewrite Rminus_diag, Rmult_0_l. lra. }
    split; [assumption|].
    unfold rsample_at; rewrite C. unfold rsample_right, c_one.
    split; [reflexivity|].
    rewrite !s_sub_real. simpl s_mul.
    replace ((1 - 0) * (h - l) * (h - l)) with ((h - l) * (h - l)) by ring.
    rewrite s_sqrt_real by nra. rewrite sqrt_square by lra.
    rewrite s_sub_real. f_equal; ring.
  - intros low32 high32.
    pose proof (binary32_zero_not_below low32 (SFsub 24 128 high32 low32)) as C.
    split; [exact C|].
    unfold rsample_elementwise. cbn [a_lt a_div a_sub a_one binary32].
    now rewrite C.
Qed.

(** C6.  Computed without rounding, with real parameters
    [low < peak < high], [cdf] is non-decreasing on [[low, high]].
    (Computed in single precision it can decrease: for
    [Triangular(0., 3., 0.3)] it is lower at the float that follows the
    peak than at the peak.) *)
Theorem cdf_monotone (self : Triangular) (value1 value2 : Tensor scalar)
    (s : Size) (i : Index) (l h p v1 v2 : R) :
  wf self ->
  broadcast_shapes (shape value1) (_batch_shape self) = Some s ->
  broadcast_shapes (shape value2) (_batch_shape self) = Some s ->
  in_range s i = true ->
  bget (low self) i = Real l -> bget (high self) i = Real h ->
  bget (peak self) i = Real p ->
  bget value1 i = Real v1 -> bget value2 i = Real v2 ->
  l < p < h -> l <= v1 -> v1 <= v2 -> v2 <= h ->
  exists t1 t2 c1 c2,
    cdf self value1 = Ok t1 /\ cdf self value2 = Ok t2 /\
    elem t1 i = Real c1 /\ elem t2 i = Real c2 /\ c1 <= c2.
Proof.
  intros W Hb1 Hb2 Hi El Eh Ep E1 E2 Hp H1 H12 H2.
  destruct (cdf_elem self value1 s W Hb1) as (t1 & Ht1 & Hs1 & Hg1).
  destruct (cdf_elem self value2 s W Hb2) as (t2 & Ht2 & Hs2 & Hg2).
  destruct (cdf_at_monotone l h p v1 v2 Hp H1 H12 H2) as (c1 & c2 & C1 & C2 & C).
  exists t1, t2, c1, c2.
  rewrite <- (bget_in_range t1 i), <- (bget_in_range t2 i)
    by (rewrite ?Hs1, ?Hs2; exact Hi).
  rewrite Hg1, Hg2, El, Eh, Ep, E1, E2. auto.
Qed.

(** C5.  Accessing [entropy] fails: [torch.log] is handed the Python
    number [2.] and raises a [TypeError] before anything is computed. *)
Theorem entropy_raises (self : Triangular) :
  entropy self =
    Raise (TypeError "log(): argument 'input' (position 1) must be Tensor, not float").
Proof. reflexivity. Qed.

Lemma low_is_real_true (constraints_real : scalar -> bool) (l : Tensor scalar) :
  low_is_real constraints_real l = true <->
  forall i, in_range (shape l) i = true -> constraints_real (elem l i) = true.
Proof. unfold low_is_real. now rewrite tensor_all_true. Qed.

Lemma low_is_real_false (constraints_real : scalar -> bool) (l : Tensor scalar) :
  low_is_real constraints_real l = false <->
  exists i, in_range (shape l) i = true /\ constraints_real (elem l i) = false.
Proof. unfold low_is_real. now rewrite tensor_all_false. Qed.

(** C4.  With validation enabled, the parent constructor first checks
    [low] against the constraint that line 19 declares for it: when some
    element of [low] fails [constraints.real] (a NaN), its [ValueError]
    about the parameter [low] is raised, before the three checks.  When
    every element of [low] passes, the constructor raises the error that
    names the first violated constraint, checked in the order
    [low >= high], [peak < low], [peak > high]; it returns the instance
    when no batch element violates any of them; so it fails if and only if
    some batch element violates [low < high], [low <= peak] or
    [peak <= high]. *)
Theorem init_validation (default_validate_args : bool)
    (constraints_real : scalar -> bool)
    (invalid_low : Tensor scalar -> string) (lo hi pk : pyobj)
    (validate_args : option bool) (l h p : Tensor scalar) :
  broadcast_all lo hi pk = Ok (l, h, p) ->
  validation_enabled default_validate_args validate_args = true ->
  let construct := __init__ default_validate_args constraints_real invalid_low lo hi pk validate_args in
  ((exists i, in_range (shape l) i = true /\
              constraints_real (elem l i) = false) ->
   construct = Raise (ValueError (invalid_low l))) /\
  ((forall i, in_range (shape l) i = true ->
              constraints_real (elem l i) = true) ->
   (violates_low_high l h ->
    construct = Raise (ValueError "Triangular is not defined when low >= high")) /\
   (~ violates_low_high l h -> violates_low_peak l p ->
    construct = Raise (ValueError "Triangular is not defined when peak < low")) /\
   (~ violates_low_high l h -> ~ violates_low_peak l p ->
    violates_peak_high p h ->
    construct = Raise (ValueError "Triangular is not defined when peak > high")) /\
   (~ violates_low_high l h -> ~ violates_low_peak l p ->
    ~ violates_peak_high p h ->
    exists self, construct = Ok self /\
      low self = l /\ high self = h /\ peak self = p) /\
   ((exists e, construct = Raise e) <->
    violates_low_high l h \/ violates_low_peak l p \/ violates_peak_high p h)).
Proof.
  intros E V construct; subst construct.
  destruct (broadcast_all_shapes _ _ _ _ _ _ E) as (Hh & Hp & _).
  unfold __init__; rewrite E; cbn [bind]; rewrite V.
  split.
  { intros X. apply low_is_real_false in X. now rewrite X. }
  intros X. apply low_is_real_true in X. rewrite X. simpl negb. cbv iota.
  unfold t_lt, t_le.
  destruct (check_all s_lt l h Hh) as (c1 & -> & A1); cbn [bind].
  destruct (check_all s_le l p Hp) as (c2 & -> & A2); cbn [bind].
  destruct (check_all s_le p h) as (c3 & -> & A3); [congruence|]; cbn [bind].
  fold (violates_low_high l h) in A1.
  fold (violates_low_peak l p) in A2.
  fold (violates_peak_high p h) in A3.
  destruct (tensor_all c1) eqn:T1; simpl negb; cbv iota.
  2:{ pose proof (proj1 A1 eq_refl) as V1.
      repeat split; intros; auto; try contradiction.
      eexists; reflexivity. }
  assert (N1 : ~ violates_low_high l h)
    by (intros Y; apply A1 in Y; discriminate).
  destruct (tensor_all c2) eqn:T2; simpl negb; cbv iota.
  2:{ pose proof (proj1 A2 eq_refl) as V2.
      repeat split; intros; auto; try contradiction.
      eexists; reflexivity. }
  assert (N2 : ~ violates_low_peak l p)
    by (intros Y; apply A2 in Y; discriminate).
  destruct (tensor_all c3) eqn:T3; simpl negb; cbv iota.
  2:{ pose proof (proj1 A3 eq_refl) as V3.
      repeat split; intros; auto; try contradiction.
      eexists; reflexivity. }
  assert (N3 : ~ violates_peak_high p h)
    by (intros Y; apply A3 in Y; discriminate).
  repeat split; intros; try contradiction.
  - eexists; split; [reflexivity|]; auto.
  - destruct H as (e & He); discriminate.
  - destruct H as [Y|[Y|Y]]; contradiction.
Qed.

Lemma update_last (st : store) (o : Triangular) (f : Triangular -> Triangular) :
  update (st ++ [o]) (List.length st) f = (st ++ [f o])%list.
Proof. induction st as [|d st IH]; simpl; auto. now rewrite IH. Qed.



(** * Instances of the theorems *)

Lemma unit_triangle_init :
  __init__ false rejects_nan low_message (Number (Real 0)) (Number (Real 1)) (Number (Real (1 / 2))) None
  = Ok unit_triangle.
Proof. reflexivity. Qed.

Lemma unit_triangle_wf : wf unit_triangle.
Proof. repeat split. Qed.

Lemma left_triangle_wf : wf left_triangle.
Proof. repeat split. Qed.

(** The scenario [low=0, high=1, peak=0.5]: [cdf 0.25] is [0.125] and
    [cdf 0.75] is [0.875]. *)
Lemma cdf_unit_triangle_quarters :
  exists t1 t2,
    cdf unit_triangle (scalar_tensor (Real (1 / 4))) = Ok t1 /\
    cdf unit_triangle (scalar_tensor (Real (3 / 4))) = Ok t2 /\
    elem t1 [] = Real (1 / 8) /\ elem t2 [] = Real (7 / 8).
Proof.
  destruct (cdf_elem unit_triangle (scalar_tensor (Real (1 / 4))) []
              unit_triangle_wf eq_refl) as (t1 & H1 & S1 & G1).
  destruct (cdf_elem unit_triangle (scalar_tensor (Real (3 / 4))) []
              unit_triangle_wf eq_refl) as (t2 & H2 & S2 & G2).
  exists t1, t2; split; [assumption|]; split; [assumption|].
  rewrite <- (bget_in_range t1 []), <- (bget_in_range t2 [])
    by (rewrite ?S1, ?S2; reflexivity).
  rewrite G1, G2.
  change (bget (low unit_triangle) []) with (Real 0).
  change (bget (high unit_triangle) []) with (Real 1).
  change (bget (peak unit_triangle) []) with (Real (1 / 2)).
  rewrite !bget_scalar_tensor.
  destruct (cdf_at_real 0 1 (1 / 2) (1 / 4)) as (c1 & -> & _ & _ & C1 & _);
    [lra|].
  destruct (cdf_at_real 0 1 (1 / 2) (3 / 4)) as (c2 & -> & _ & _ & _ & C2);
    [lra|].
  rewrite C1, C2 by lra. split; f_equal; field.
Qed.

Ltac real_cmp :=
  simpl;
  first [ apply Rltb_true | apply Rleb_true | apply Rltb_false | apply Rleb_false
        | idtac ];
  lra.

Lemma log_prob_piecewise_witness :
  exists t, log_prob unit_triangle (scalar_tensor (Real (1 / 4))) = Ok t /\
    shape t = [] /\
    elem t [] = Real (ln 2 + ln (1 / 4 - 0) - ln (1 - 0) - ln (1 / 2 - 0)).
Proof.
  destruct (log_prob_piecewise unit_triangle (scalar_tensor (Real (1 / 4)))
              [] [] (Real 0) (Real 1) (Real (1 / 2)) (Real (1 / 4)))
    as (t & Ht & Hs & Hl & _);
    [ exact unit_triangle_wf | reflexivity | reflexivity | reflexivity
    | reflexivity | reflexivity | reflexivity | real_cmp | real_cmp | real_cmp |].
  exists t; split; [exact Ht|]; split; [exact Hs|].
  rewrite Hl by real_cmp.
  rewrite !s_sub_real, !s_log_real by lra. reflexivity.
Defined.

Lemma cdf_clamps_witness :
  exists t, cdf unit_triangle (scalar_tensor (Real 2)) = Ok t /\
    shape t = [] /\ elem t [] = Real 1.
Proof.
  destruct (cdf_clamps unit_triangle (scalar_tensor (Real 2))
              [] [] (Real 0) (Real 1) (Real (1 / 2)) (Real 2))
    as ((t & Ht & Hs & H1 & _) & _);
    [ exact unit_triangle_wf | reflexivity | reflexivity | reflexivity
    | reflexivity | reflexivity | reflexivity | real_cmp | real_cmp | real_cmp |].
  exists t; split; [exact Ht|]; split; [exact Hs|].
  apply H1. real_cmp.
Defined.

Lemma log_prob_at_the_bounds_witness :
  exists tl th,
    log_prob unit_triangle (low unit_triangle) = Ok tl /\
    log_prob unit_triangle (high unit_triangle) = Ok th /\
    elem tl [] = NegInf /\ elem th [] = NegInf.
Proof.
  destruct (log_prob_at_the_bounds unit_triangle [] 0 1 (1 / 2))
    as (tl & th & Hl & Hh & Al & Ah);
    [ exact unit_triangle_wf | reflexivity | reflexivity | reflexivity
    | reflexivity | lra | lra |].
  exists tl, th; split; [exact Hl|]; split; [exact Hh|]; split.
  - apply Al; lra.
  - apply Ah; lra.
Defined.


Lemma rsample_within_support_witness :
  exists t r, rsample unit_triangle (fun _ => 3 / 4) [2%nat] = Ok t /\
    elem t [0%nat] = Real r /\ 0 <= r <= 1.
Proof.
  apply (rsample_within_support unit_triangle (fun _ => 3 / 4) [2%nat] [0%nat]
           0 1 (1 / 2));
    [ exact unit_triangle_wf | reflexivity | reflexivity | reflexivity
    | reflexivity | lra | lra | lra ].
Defined.

Lemma rsample_peak_at_low_witness :
  exists t, rsample left_triangle (fun _ => 0) [] = Ok t /\ elem t [] = Real 0.
Proof.
  destruct (rsample_peak_at_low left_triangle (fun _ => 0) [] [] 0 1)
    as ((t & Ht & _ & _ & Hv) & _);
    [ exact left_triangle_wf | reflexivity | reflexivity | reflexivity
    | reflexivity | reflexivity | lra |].
  exists t; split; [exact Ht | exact Hv].
Defined.

(** Single precision, [Triangular(0.1, 1., 0.1)] and a draw of 0: the
    parameters are valid and the sample is three floats above [low]. *)
Lemma rsample_peak_at_low_counterexample :
  SFltb one_tenth (f32 1 0) = true /\
  rsample_elementwise binary32 one_tenth (f32 1 0) one_tenth (f32 0 0) =
    f32 13421776 (-27) /\
  SFeqb (rsample_elementwise binary32 one_tenth (f32 1 0) one_tenth (f32 0 0))
        one_tenth = false.
Proof. vm_compute. repeat split. Qed.

(** Single precision, [Triangular(1., 2.**26, 2.)] and a draw of
    [2^-25]: the parameters are valid with the peak strictly inside, the
    draw is in [0,1), and the sample is 0, below [low]. *)
Lemma rsample_within_support_counterexample :
  SFltb (f32 1 0) two_pow_26 = true /\
  SFleb (f32 1 0) (f32 2 0) = true /\
  SFleb (f32 2 0) two_pow_26 = true /\
  SFleb (f32 0 0) two_pow_minus_25 = true /\
  SFltb two_pow_minus_25 (f32 1 0) = true /\
  rsample_elementwise binary32 (f32 1 0) two_pow_26 (f32 2 0) two_pow_minus_25 =
    f32 0 0 /\
  SFltb (rsample_elementwise binary32 (f32 1 0) two_pow_26 (f32 2 0)
                             two_pow_minus_25)
        (f32 1 0) = true.
Proof. vm_compute. repeat split. Qed.

(** Single precision, [Triangular(0., 3., 0.3)]: the parameters are
    valid with the peak strictly inside, the peak and the float that
    follows it are in the support, and [cdf] is lower at the second than
    at the first. *)
Lemma cdf_monotone_counterexample :
  SFltb (f32 0 0) three_tenths = true /\
  SFltb three_tenths (f32 3 0) = true /\
  SFleb (f32 0 0) three_tenths = true /\
  SFleb three_tenths after_three_tenths = true /\
  SFleb after_three_tenths (f32 3 0) = true /\
  cdf_elementwise binary32 (f32 0 0) (f32 3 0) three_tenths three_tenths =
    f32 13421773 (-27) /\
  cdf_elementwise binary32 (f32 0 0) (f32 3 0) three_tenths after_three_tenths =
    f32 13421768 (-27) /\
  SFltb (cdf_elementwise binary32 (f32 0 0) (f32 3 0) three_tenths
                         after_three_tenths)
        (cdf_elementwise binary32 (f32 0 0) (f32 3 0) three_tenths
                         three_tenths) = true.
Proof. vm_compute. repeat split. Qed.

Lemma cdf_monotone_witness :
  exists t1 t2 c1 c2,
    cdf unit_triangle (scalar_tensor (Real (1 / 4))) = Ok t1 /\
    cdf unit_triangle (scalar_tensor (Real (3 / 4))) = Ok t2 /\
    elem t1 [] = Real c1 /\ elem t2 [] = Real c2 /\ c1 <= c2.
Proof.
  apply (cdf_monotone unit_triangle (scalar_tensor (Real (1 / 4)))
           (scalar_tensor (Real (3 / 4))) [] [] 0 1 (1 / 2) (1 / 4) (3 / 4));
    [ exact unit_triangle_wf | reflexivity | reflexivity | reflexivity
    | reflexivity | reflexivity | reflexivity | reflexivity | reflexivity
    | lra | lra | lra | lra ].
Defined.

Lemma init_validation_witness :
  __init__ false rejects_nan low_message (Number (Real 1)) (Number (Real 0)) (Number (Real (1 / 2)))
           (Some true)
  = Raise (ValueError "Triangular is not defined when low >= high") /\
  exists self,
    __init__ false rejects_nan low_message (Number (Real 0)) (Number (Real 1)) (Number (Real (1 / 2)))
             (Some true) = Ok self /\
    low self = number_view 0 /\ high self = number_view 1 /\
    peak self = number_view (1 / 2).
Proof.
  split.
  - destruct (init_validation false rejects_nan low_message (Number (Real 1)) (Number (Real 0))
                (Number (Real (1 / 2))) (Some true)
                (number_view 1) (number_view 0) (number_view (1 / 2)))
      as (_ & H); [ reflexivity | reflexivity |].
    destruct H as (H1 & _); [intros i _; reflexivity|].
    apply H1. exists []; split; [reflexivity | real_cmp].
  - destruct (init_validation false rejects_nan low_message (Number (Real 0)) (Number (Real 1))
                (Number (Real (1 / 2))) (Some true)
                (number_view 0) (number_view 1) (number_view (1 / 2)))
      as (_ & H); [ reflexivity | reflexivity |].
    destruct H as (_ & _ & _ & H4 & _); [intros i _; reflexivity|].
    apply H4; intros (i & Hi & Hf); destruct i; try discriminate; simpl in Hf;
      rcases; lra.
Defined.

(** A NaN [low] with validation on: [low < high] is violated, yet the
    error is the parent's, about the parameter [low], and not the one
    that names [low >= high]. *)
Lemma init_validation_counterexample :
  s_lt NaN (Real 1) = false /\
  __init__ false rejects_nan low_message (Number NaN) (Number (Real 1))
           (Number (Real (1 / 2))) (Some true)
  = Raise (ValueError "The parameter low has invalid values") /\
  __init__ false rejects_nan low_message (Number NaN) (Number (Real 1))
           (Number (Real (1 / 2))) (Some true)
  <> Raise (ValueError "Triangular is not defined when low >= high").
Proof.
  split; [reflexivity|]. split; [reflexivity|]. discriminate.
Qed.




(** * Further properties *)

(** X9.  A peak on the lower bound is accepted by the validation, and there
    [log_prob low] is NaN: the inside branch computes
    [log 2 + log 0 - log (high - low) - log 0], minus infinity minus minus
    infinity. *)
Theorem log_prob_degenerate_peak (self : Triangular) (i : Index) (l h : R) :
  wf self ->
  in_range (_batch_shape self) i = true ->
  bget (low self) i = Real l -> bget (high self) i = Real h ->
  bget (peak self) i = Real l ->
  l < h ->
  exists t, log_prob self (low self) = Ok t /\ elem t i = NaN.
Proof.
  intros W Hi El Eh Ep Hlh.
  pose proof W as (Wl & _).
  destruct (log_prob_elem self (low self) (_batch_shape self) W) as (t & Ht & Hs & Hg);
    [rewrite Wl; apply broadcast_shapes_refl|].
  exists t; split; [assumption|].
  rewrite <- (bget_in_range t i) by (rewrite Hs; exact Hi).
  rewrite Hg, El, Eh, Ep.
  unfold log_prob_at, s_gt, s_ge. simpl s_lt. simpl s_le.
  replace (Rltb l l) with false by (symmetry; apply Rltb_false; lra).
  replace (Rltb h l) with false by (symmetry; apply Rltb_false; lra).
  replace (Rleb l l) with true by (symmetry; apply Rleb_true; lra).
  simpl. unfold log_prob_left, c_two.
  rewrite !s_sub_real.
  rewrite (s_log_zero (l - l)) by lra.
  rewrite !s_log_real by lra. reflexivity.
Qed.

(** X10.  A NaN value is not taken for a value outside the support: whatever
    the parameters, [log_prob] returns NaN there, not [log 1e-6], and
    [cdf] returns NaN. *)
Theorem nan_value_propagates (self : Triangular) (value : Tensor scalar)
    (s : Size) (i : Index) :
  wf self ->
  broadcast_shapes (shape value) (_batch_shape self) = Some s ->
  in_range s i = true ->
  bget value i = NaN ->
  exists t c, log_prob self value = Ok t /\ cdf self value = Ok c /\
    elem t i = NaN /\ elem c i = NaN.
Proof.
  intros W Hb Hi Ev.
  destruct (log_prob_elem self value s W Hb) as (t & Ht & Hs & Hg).
  destruct (cdf_elem self value s W Hb) as (c & Hc & Hsc & Hgc).
  exists t, c; split; [assumption|]; split; [assumption|].
  rewrite <- (bget_in_range t i), <- (bget_in_range c i)
    by (rewrite ?Hs, ?Hsc; exact Hi).
  rewrite Hg, Hgc, Ev.
  unfold log_prob_at, log_prob_right, cdf_at, cdf_inside, cdf_right, s_gt, s_ge,
    c_two, c_one.
  rewrite (s_log_real 2) by lra.
  destruct (bget (low self) i), (bget (high self) i), (bget (peak self) i);
    split; reflexivity.
Qed.

Lemma map2_mismatch {A B C : Type} (f : A -> B -> C)
    (a : Tensor A) (b : Tensor B) :
  broadcast_shapes (shape a) (shape b) = None ->
  map2 f a b = Raise shape_error.
Proof. intros H; unfold map2; now rewrite H. Qed.

(** X11.  [log_prob] and [cdf] return a tensor exactly when the shape of the
    value broadcasts with the batch shape; otherwise both raise the
    library's [RuntimeError]. *)
Theorem value_shape_mismatch (self : Triangular) (value : Tensor scalar) :
  wf self ->
  ((exists t, log_prob self value = Ok t) <->
   broadcast_shapes (shape value) (_batch_shape self) <> None) /\
  ((exists t, cdf self value = Ok t) <->
   broadcast_shapes (shape value) (_batch_shape self) <> None) /\
  (broadcast_shapes (shape value) (_batch_shape self) = None ->
   exists msg, log_prob self value = Raise (RuntimeError msg) /\
               cdf self value = Raise (RuntimeError msg)).
Proof.
  intros W. pose proof W as (Hl & Hh & Hp & _).
  assert (F : broadcast_shapes (shape value) (_batch_shape self) = None ->
              log_prob self value = Raise shape_error /\
              cdf self value = Raise shape_error).
  { intros N. unfold log_prob, cdf; unfold_ops.
    destruct (map2_spec s_sub (high self) (low self) (_batch_shape self))
      as (d & -> & _ & _); [rewrite Hh, Hl; apply broadcast_shapes_refl|].
    cbn [bind].
    rewrite (map2_mismatch s_ge value (low self)) by (now rewrite Hl).
    rewrite (map2_mismatch s_gt value (low self)) by (now rewrite Hl).
    auto. }
  destruct (broadcast_shapes (shape value) (_batch_shape self)) as [s|] eqn:E.
  - destruct (log_prob_elem self value s W E) as (t & Ht & _).
    destruct (cdf_elem self value s W E) as (c & Hc & _).
    repeat split; intros; try discriminate; eauto.
  - destruct (F eq_refl) as (F1 & F2).
    repeat split; try (intros (t & Ht); congruence);
      try (intros N; now contradiction N).
    intros _. eexists; split; [exact F1 | exact F2].
Qed.

(** ** More on construction *)

Lemma broadcast_all_fail (a b c : pyobj) :
  broadcast_shape3 a b c = None ->
  broadcast_all a b c = Raise shape_error.
Proof.
  unfold broadcast_shape3, broadcast_all.
  destruct (broadcast_shapes _ _) as [s1|]; [|reflexivity].
  now intros ->.
Qed.

Lemma broadcast_all_inv (a b c : pyobj) (l h p : Tensor scalar) :
  broadcast_all a b c = Ok (l, h, p) ->
  exists s, broadcast_shape3 a b c = Some s /\
    shape l = s /\ shape h = s /\ shape p = s /\
    (forall i, bget l i = bget (as_tensor a) i) /\
    (forall i, bget h i = bget (as_tensor b) i) /\
    (forall i, bget p i = bget (as_tensor c) i).
Proof.
  intros E. unfold broadcast_shape3.
  destruct (broadcast_shapes (shape (as_tensor a)) (shape (as_tensor b)))
    as [s1|] eqn:H1.
  2:{ unfold broadcast_all in E; rewrite H1 in E; discriminate. }
  destruct (broadcast_shapes s1 (shape (as_tensor c))) as [s|] eqn:H2.
  2:{ unfold broadcast_all in E; rewrite H1, H2 in E; discriminate. }
  destruct (broadcast_all_spec a b c s1 s H1 H2)
    as (l' & h' & p' & E' & F).
  rewrite E in E'; injection E' as <- <- <-.
  exists s; split; [reflexivity | exact F].
Qed.

Section MoreConstruction.

Variable default_validate_args : bool.
Variable constraints_real : scalar -> bool.
Variable invalid_low : Tensor scalar -> string.

Lemma init_result (lo hi pk : pyobj) (va : option bool) (self : Triangular) :
  __init__ default_validate_args constraints_real invalid_low lo hi pk va = Ok self ->
  exists l h p, broadcast_all lo hi pk = Ok (l, h, p) /\
    self = super_init l h p
             (if is_number lo && is_number hi && is_number pk
              then [] else shape l) [] va /\
    (validation_enabled default_validate_args va = true ->
     ~ violates_low_high l h /\ ~ violates_low_peak l p /\
     ~ violates_peak_high p h).
Proof.
  unfold __init__.
  destruct (broadcast_all lo hi pk) as [[[l h] p]|] eqn:E; [|discriminate].
  cbn [bind]. intros H. exists l, h, p; split; [reflexivity|].
  destruct (broadcast_all_shapes _ _ _ _ _ _ E) as (Hh & Hp & _).
  destruct (validation_enabled _ _).
  2:{ injection H as <-. split; [reflexivity | discriminate]. }
  destruct (negb (low_is_real _ _)); [discriminate|].
  revert H. unfold t_lt, t_le.
  destruct (check_all s_lt l h Hh) as (c1 & -> & A1); cbn [bind].
  destruct (check_all s_le l p Hp) as (c2 & -> & A2); cbn [bind].
  destruct (check_all s_le p h) as (c3 & -> & A3); [congruence|]; cbn [bind].
  destruct (tensor_all c1) eqn:T1; simpl negb; cbv iota; [|discriminate].
  destruct (tensor_all c2) eqn:T2; simpl negb; cbv iota; [|discriminate].
  destruct (tensor_all c3) eqn:T3; simpl negb; cbv iota; [|discriminate].
  intros [= <-]. split; [reflexivity|]. intros _.
  repeat split; intros X; [apply A1 in X | apply A2 in X | apply A3 in X];
    congruence.
Qed.

End MoreConstruction.

(** X12.  Arguments whose shapes do not broadcast are rejected with the
    library's [RuntimeError], before any validation and whatever the
    validation flag is. *)
Theorem init_shape_mismatch (default_validate_args : bool)
    (constraints_real : scalar -> bool)
    (invalid_low : Tensor scalar -> string) (lo hi pk : pyobj)
    (validate_args : option bool) :
  broadcast_shape3 lo hi pk = None ->
  exists msg,
    __init__ default_validate_args constraints_real invalid_low lo hi pk validate_args =
      Raise (RuntimeError msg).
Proof.
  intros H. unfold __init__. rewrite (broadcast_all_fail _ _ _ H).
  eexists; reflexivity.
Qed.

(** X13.  With validation disabled the constructor never raises a [ValueError]:
    it returns an instance for any parameter values, valid or not, as soon
    as the shapes broadcast. *)
Theorem init_without_validation (default_validate_args : bool)
    (constraints_real : scalar -> bool)
    (invalid_low : Tensor scalar -> string)
    (lo hi pk : pyobj) (validate_args : option bool) :
  validation_enabled default_validate_args validate_args = false ->
  (forall msg,
     __init__ default_validate_args constraints_real invalid_low lo hi pk validate_args <>
       Raise (ValueError msg)) /\
  ((exists self,
      __init__ default_validate_args constraints_real invalid_low lo hi pk validate_args = Ok self) <->
   broadcast_shape3 lo hi pk <> None).
Proof.
  intros V.
  destruct (broadcast_shape3 lo hi pk) as [s|] eqn:E.
  - unfold broadcast_shape3 in E.
    destruct (broadcast_shapes (shape (as_tensor lo)) (shape (as_tensor hi)))
      as [s1|] eqn:H1; [|discriminate].
    destruct (broadcast_all_spec lo hi pk s1 s H1 E) as (l & h & p & B & _).
    rewrite (init_no_validation default_validate_args constraints_real invalid_low _ _ _ _ _ _ _ B V).
    split; [discriminate|]. split; intros; [discriminate | eauto].
  - unfold __init__. rewrite (broadcast_all_fail _ _ _ E). cbn [bind].
    split; [discriminate|].
    split; [intros (d & X); discriminate | intros N; now contradiction N].
Qed.

(** X14.  Every instance the constructor returns is well formed: the three
    parameters have the batch shape, which is the broadcast shape of the
    arguments (empty for three numbers), the event shape is empty, every
    parameter reads the elements of its argument under broadcasting, and
    the flag is the one given. *)
Theorem init_instance (default_validate_args : bool)
    (constraints_real : scalar -> bool)
    (invalid_low : Tensor scalar -> string) (lo hi pk : pyobj)
    (validate_args : option bool) (self : Triangular) :
  __init__ default_validate_args constraints_real invalid_low lo hi pk validate_args = Ok self ->
  wf self /\
  broadcast_shape3 lo hi pk = Some (_batch_shape self) /\
  (is_number lo && is_number hi && is_number pk = true ->
   _batch_shape self = []) /\
  _validate_args self = validate_args /\
  forall i,
    bget (low self) i = bget (as_tensor lo) i /\
    bget (high self) i = bget (as_tensor hi) i /\
    bget (peak self) i = bget (as_tensor pk) i.
Proof.
  intros H. pose proof (init_wf _ _ _ _ _ _ _ _ H) as W.
  destruct (init_result _ _ _ _ _ _ _ _ H) as (l & h & p & B & -> & _).
  destruct (broadcast_all_inv _ _ _ _ _ _ B)
    as (s & Hs & Sl & Sh & Sp & Gl & Gh & Gp).
  destruct W as (Wl & W'). simpl in Wl.
  split; [split; assumption|]. simpl.
  split; [rewrite <- Wl, Sl; assumption|].
  split; [intros N; now rewrite N|].
  split; [now destruct validate_args|]. intros i; auto.
Qed.

(** X15.  An instance built with validation enabled satisfies [low < high] and
    [low <= peak <= high] at every batch element; in particular no
    parameter element is NaN. *)
Theorem init_validated_everywhere (default_validate_args : bool)
    (constraints_real : scalar -> bool)
    (invalid_low : Tensor scalar -> string)
    (lo hi pk : pyobj) (validate_args : option bool) (self : Triangular)
    (i : Index) :
  validation_enabled default_validate_args validate_args = true ->
  __init__ default_validate_args constraints_real invalid_low lo hi pk validate_args = Ok self ->
  in_range (_batch_shape self) i = true ->
  s_lt (elem (low self) i) (elem (high self) i) = true /\
  s_le (elem (low self) i) (elem (peak self) i) = true /\
  s_le (elem (peak self) i) (elem (high self) i) = true /\
  elem (low self) i <> NaN /\ elem (high self) i <> NaN /\
  elem (peak self) i <> NaN.
Proof.
  intros V H Hi. pose proof (init_wf _ _ _ _ _ _ _ _ H) as (Wl & Wh & Wp & _).
  destruct (init_result _ _ _ _ _ _ _ _ H) as (l & h & p & B & -> & N).
  destruct (N V) as (N1 & N2 & N3). simpl in *.
  assert (A1 : s_lt (elem l i) (elem h i) = true).
  { destruct (s_lt (elem l i) (elem h i)) eqn:E; [reflexivity|].
    exfalso; apply N1. exists i; split; [now rewrite Wl | assumption]. }
  assert (A2 : s_le (elem l i) (elem p i) = true).
  { destruct (s_le (elem l i) (elem p i)) eqn:E; [reflexivity|].
    exfalso; apply N2. exists i; split; [now rewrite Wl | assumption]. }
  assert (A3 : s_le (elem p i) (elem h i) = true).
  { destruct (s_le (elem p i) (elem h i)) eqn:E; [reflexivity|].
    exfalso; apply N3. exists i; split; [now rewrite Wp | assumption]. }
  repeat split; auto; intros X; rewrite X in *;
    try discriminate; destruct (elem l i); discriminate.
Qed.

(** ** More on [expand] *)

Lemma broadcast_rev_below (v b c s : list nat) :
  broadcast_rev v c = Some s -> expandable_rev b c = true ->
  exists s0, broadcast_rev v b = Some s0.
Proof.
  revert b c s; induction v as [|x v IH]; intros b c s; simpl.
  - eauto.
  - destruct b as [|y b]; [eauto|].
    destruct c as [|z c]; [discriminate|]. simpl.
    destruct (broadcast_rev v c) as [r|] eqn:E; [|discriminate].
    intros H X. apply andb_prop in X as [X X'].
    destruct (IH b c r E X') as (r0 & ->).
    apply orb_prop in X as [X|X]; apply Nat.eqb_eq in X; subst y.
    + destruct (x =? z)%nat; [eauto|].
      destruct (x =? 1)%nat; [eauto|].
      destruct (z =? 1)%nat; [eauto | discriminate].
    + destruct (x =? 1)%nat eqn:Ex; [eauto|].
      simpl. eauto.
Qed.

Lemma broadcast_shapes_below (v b c s : Size) :
  broadcast_shapes v c = Some s -> expandable b c = true ->
  exists s0, broadcast_shapes v b = Some s0.
Proof.
  unfold broadcast_shapes, expandable.
  destruct (broadcast_rev (rev v) (rev c)) as [r|] eqn:E; [|discriminate].
  intros _ X. destruct (broadcast_rev_below _ _ _ _ E X) as (r0 & ->).
  simpl; eauto.
Qed.

Section MoreExpand.

Variable default_validate_args : bool.
Variable constraints_real : scalar -> bool.
Variable invalid_low : Tensor scalar -> string.
Variable super_expand : store -> ref -> Size -> result (ref * store).

(** The instance that the fallback path of [expand] builds. *)
Lemma expand_fallback (st : store) (self : ref) (d : Triangular)
    (batch_shape : Size) :
  nth_error st self = Some d ->
  wf d ->
  super_expand st self batch_shape = Raise NotImplementedError ->
  expandable (_batch_shape d) batch_shape = true ->
  exists d',
    expand default_validate_args constraints_real invalid_low super_expand st self batch_shape =
      Ok (List.length st, (st ++ [d'])%list) /\
    wf d' /\ _batch_shape d' = batch_shape /\
    _validate_args d' = _validate_args d /\
    forall i,
      bget (low d') i = bget (low d) i /\
      bget (high d') i = bget (high d) i /\
      bget (peak d') i = bget (peak d) i.
Proof.
  intros Hn (Wl & Wh & Wp & We) Hsup Hx.
  unfold expand; rewrite Hn, Hsup.
  destruct (tensor_expand_spec (low d) batch_shape) as (l1 & -> & Sl1 & Gl1);
    [now rewrite Wl|].
  destruct (tensor_expand_spec (high d) batch_shape) as (h1 & -> & Sh1 & Gh1);
    [now rewrite Wh|].
  destruct (tensor_expand_spec (peak d) batch_shape) as (p1 & -> & Sp1 & Gp1);
    [now rewrite Wp|].
  cbn [bind].
  destruct (broadcast_all_spec (TensorObj l1) (TensorObj h1) (TensorObj p1)
              batch_shape batch_shape)
    as (l2 & h2 & p2 & Hba & Sl2 & Sh2 & Sp2 & Gl2 & Gh2 & Gp2);
    [simpl; rewrite Sl1, Sh1; apply broadcast_shapes_refl
    |simpl; rewrite Sp1; apply broadcast_shapes_refl|].
  unfold new.
  rewrite (init_no_validation default_validate_args constraints_real invalid_low _ _ _ (Some false) _ _ _ Hba)
    by reflexivity.
  cbn [bind is_number andb]. rewrite update_last.
  eexists; split; [reflexivity|].
  unfold wf; simpl. repeat split; auto; try congruence.
  - now rewrite Gl2; simpl; rewrite Gl1.
  - now rewrite Gh2; simpl; rewrite Gh1.
  - now rewrite Gp2; simpl; rewrite Gp1.
Qed.

End MoreExpand.

(** X16.  When the target is not a shape the batch shape expands to, [expand]
    raises the library's [RuntimeError] and returns no instance. *)
Theorem expand_not_a_target (default_validate_args : bool)
    (constraints_real : scalar -> bool)
    (invalid_low : Tensor scalar -> string)
    (super_expand : store -> ref -> Size -> result (ref * store))
    (st : store) (self : ref) (d : Triangular) (batch_shape : Size) :
  nth_error st self = Some d ->
  wf d ->
  super_expand st self batch_shape = Raise NotImplementedError ->
  expandable (_batch_shape d) batch_shape = false ->
  exists msg,
    expand default_validate_args constraints_real invalid_low super_expand st self batch_shape =
      Raise (RuntimeError msg).
Proof.
  intros Hn (Wl & _) Hsup Hx.
  unfold expand; rewrite Hn, Hsup.
  unfold tensor_expand at 1. rewrite Wl, Hx. cbn [bind].
  eexists; reflexivity.
Qed.

(** X17.  Density and cumulative distribution of an expanded instance are those
    of the original, broadcast: at every index of the result, [log_prob]
    and [cdf] of the new instance give the element that the original's
    result contributes there. *)
Theorem expand_same_results (default_validate_args : bool)
    (constraints_real : scalar -> bool)
    (invalid_low : Tensor scalar -> string)
    (super_expand : store -> ref -> Size -> result (ref * store))
    (st : store) (self : ref) (d : Triangular) (batch_shape : Size)
    (value : Tensor scalar) (s : Size) :
  nth_error st self = Some d ->
  wf d ->
  super_expand st self batch_shape = Raise NotImplementedError ->
  expandable (_batch_shape d) batch_shape = true ->
  broadcast_shapes (shape value) batch_shape = Some s ->
  exists d' t t' c c',
    expand default_validate_args constraints_real invalid_low super_expand st self batch_shape =
      Ok (List.length st, (st ++ [d'])%list) /\
    log_prob d value = Ok t /\ log_prob d' value = Ok t' /\
    cdf d value = Ok c /\ cdf d' value = Ok c' /\
    shape t' = s /\ shape c' = s /\
    forall i, in_range s i = true ->
      elem t' i = bget t i /\ elem c' i = bget c i.
Proof.
  intros Hn W Hsup Hx Hb.
  destruct (expand_fallback default_validate_args constraints_real invalid_low super_expand st self d
              batch_shape Hn W Hsup Hx)
    as (d' & He & W' & B' & _ & G).
  destruct (broadcast_shapes_below _ _ _ _ Hb Hx) as (s0 & Hb0).
  rewrite <- B' in Hb.
  destruct (log_prob_elem d value s0 W Hb0) as (t & Ht & Hs & Hg).
  destruct (log_prob_elem d' value s W' Hb) as (t' & Ht' & Hs' & Hg').
  destruct (cdf_elem d value s0 W Hb0) as (c & Hc & Hsc & Hgc).
  destruct (cdf_elem d' value s W' Hb) as (c' & Hc' & Hsc' & Hgc').
  exists d', t, t', c, c'. repeat split; auto.
  - rewrite <- (bget_in_range t' i) by (rewrite Hs'; assumption).
    rewrite Hg', Hg. destruct (G i) as (-> & -> & ->). reflexivity.
  - rewrite <- (bget_in_range c' i) by (rewrite Hsc'; assumption).
    rewrite Hgc', Hgc. destruct (G i) as (-> & -> & ->). reflexivity.
Qed.

(** X18.  Expanding in two steps gives the parameters of expanding in one: with
    a parent that never implements [expand], [expand s1] followed by
    [expand s2] on the new instance and [expand s2] on the original build
    instances with the same batch shape, flag and parameter elements. *)
Theorem expand_twice (default_validate_args : bool)
    (constraints_real : scalar -> bool)
    (invalid_low : Tensor scalar -> string)
    (super_expand : store -> ref -> Size -> result (ref * store))
    (st : store) (self : ref) (d : Triangular) (s1 s2 : Size) :
  (forall st' r s, super_expand st' r s = Raise NotImplementedError) ->
  nth_error st self = Some d ->
  wf d ->
  expandable (_batch_shape d) s1 = true ->
  expandable s1 s2 = true ->
  exists d1 d2 d',
    expand default_validate_args constraints_real invalid_low super_expand st self s1 =
      Ok (List.length st, (st ++ [d1])%list) /\
    expand default_validate_args constraints_real invalid_low super_expand (st ++ [d1])
           (List.length st) s2 =
      Ok (S (List.length st), (st ++ [d1; d2])%list) /\
    expand default_validate_args constraints_real invalid_low super_expand st self s2 =
      Ok (List.length st, (st ++ [d'])%list) /\
    _batch_shape d2 = s2 /\ _batch_shape d' = s2 /\
    _validate_args d2 = _validate_args d' /\
    forall i, in_range s2 i = true ->
      elem (low d2) i = elem (low d') i /\
      elem (high d2) i = elem (high d') i /\
      elem (peak d2) i = elem (peak d') i.
Proof.
  intros Hsup Hn W H1 H2.
  destruct (expand_fallback default_validate_args constraints_real invalid_low super_expand st self d s1
              Hn W (Hsup _ _ _) H1)
    as (d1 & E1 & W1 & B1 & V1 & G1).
  destruct (expand_fallback default_validate_args constraints_real invalid_low super_expand (st ++ [d1])
              (List.length st) d1 s2)
    as (d2 & E2 & W2 & B2 & V2 & G2); auto.
  { now rewrite nth_error_app2, Nat.sub_diag by lia. }
  { now rewrite B1. }
  destruct (expand_fallback default_validate_args constraints_real invalid_low super_expand st self d s2
              Hn W (Hsup _ _ _))
    as (d' & E' & W' & B' & V' & G').
  { apply expandable_trans with s1; assumption. }
  exists d1, d2, d'.
  rewrite length_app, Nat.add_comm in E2; simpl in E2.
  rewrite <- app_assoc in E2; simpl in E2.
  repeat split; auto; try congruence;
    destruct W2 as (L2 & Hh2 & P2 & _), W' as (L' & Hh' & P' & _);
    destruct (G2 i) as (A & B & C), (G1 i) as (A1 & B1' & C1),
             (G' i) as (A' & Bq & C').
  - rewrite <- (bget_in_range (low d2) i), <- (bget_in_range (low d') i)
      by (rewrite ?L2, ?L'; congruence). congruence.
  - rewrite <- (bget_in_range (high d2) i), <- (bget_in_range (high d') i)
      by (rewrite ?Hh2, ?Hh'; congruence). congruence.
  - rewrite <- (bget_in_range (peak d2) i), <- (bget_in_range (peak d') i)
      by (rewrite ?P2, ?P'; congruence). congruence.
Qed.

(** ** Instances of the further properties *)

Lemma pair_triangle_wf : wf pair_triangle.
Proof. repeat split. Qed.

Lemma checked_triangle_init :
  __init__ false rejects_nan low_message (Number (Real 0)) (Number (Real 1)) (Number (Real (1 / 2)))
           (Some true)
  = Ok checked_triangle.
Proof.
  unfold __init__, t_lt, t_le, map2, tensor_all. simpl.
  replace (Rltb 0 1) with true by (symmetry; apply Rltb_true; lra).
  replace (Rleb 0 (1 / 2)) with true by (symmetry; apply Rleb_true; lra).
  replace (Rleb (1 / 2) 1) with true by (symmetry; apply Rleb_true; lra).
  reflexivity.
Qed.

Lemma log_prob_degenerate_peak_witness :
  exists t, log_prob left_triangle (low left_triangle) = Ok t /\
    elem t [] = NaN.
Proof.
  apply (log_prob_degenerate_peak left_triangle [] 0 1);
    [ exact left_triangle_wf | reflexivity | reflexivity | reflexivity
    | reflexivity | lra ].
Defined.

Lemma nan_value_propagates_witness :
  exists t c, log_prob unit_triangle (scalar_tensor NaN) = Ok t /\
    cdf unit_triangle (scalar_tensor NaN) = Ok c /\
    elem t [] = NaN /\ elem c [] = NaN.
Proof.
  apply (nan_value_propagates unit_triangle (scalar_tensor NaN) [] []);
    [ exact unit_triangle_wf | reflexivity | reflexivity | reflexivity ].
Defined.

Lemma value_shape_mismatch_witness :
  exists msg,
    log_prob pair_triangle (triple_tensor 0) = Raise (RuntimeError msg) /\
    cdf pair_triangle (triple_tensor 0) = Raise (RuntimeError msg).
Proof.
  destruct (value_shape_mismatch pair_triangle (triple_tensor 0)
              pair_triangle_wf) as (_ & _ & H).
  apply H. reflexivity.
Defined.

Lemma init_shape_mismatch_witness :
  exists msg,
    __init__ true rejects_nan low_message (TensorObj (pair_tensor 0 1)) (TensorObj (triple_tensor 2))
             (Number (Real 1)) None
    = Raise (RuntimeError msg).
Proof.
  apply (init_shape_mismatch true rejects_nan low_message (TensorObj (pair_tensor 0 1))
           (TensorObj (triple_tensor 2)) (Number (Real 1)) None).
  reflexivity.
Defined.

Lemma init_without_validation_witness :
  exists self,
    __init__ false rejects_nan low_message (Number (Real 1)) (Number (Real 0)) (Number (Real 5)) None
    = Ok self.
Proof.
  destruct (init_without_validation false rejects_nan low_message (Number (Real 1)) (Number (Real 0))
              (Number (Real 5)) None) as (_ & H); [reflexivity|].
  apply H. discriminate.
Defined.

Lemma init_instance_witness :
  exists self,
    __init__ false rejects_nan low_message (TensorObj (pair_tensor 0 1)) (Number (Real 3))
             (Number (Real 2)) None = Ok self /\
    wf self /\ _batch_shape self = [2%nat] /\
    bget (high self) [1%nat] = Real 3.
Proof.
  eexists. split; [reflexivity|].
  destruct (init_instance false rejects_nan low_message (TensorObj (pair_tensor 0 1)) (Number (Real 3))
              (Number (Real 2)) None _ eq_refl) as (W & _ & _ & _ & G).
  split; [exact W|]. split; [reflexivity|].
  destruct (G [1%nat]) as (_ & Gh & _). exact Gh.
Defined.

Lemma init_validated_everywhere_witness :
  s_lt (elem (low checked_triangle) []) (elem (high checked_triangle) []) = true /\
  elem (peak checked_triangle) [] <> NaN.
Proof.
  destruct (init_validated_everywhere false rejects_nan low_message (Number (Real 0)) (Number (Real 1))
              (Number (Real (1 / 2))) (Some true) checked_triangle [])
    as (H & _ & _ & _ & _ & N);
    [ reflexivity | exact checked_triangle_init | reflexivity |].
  split; [exact H | exact N].
Defined.

Lemma expand_not_a_target_witness :
  exists msg,
    expand true rejects_nan low_message no_super_expand [pair_triangle] 0%nat [3%nat]
    = Raise (RuntimeError msg).
Proof.
  apply (expand_not_a_target true rejects_nan low_message no_super_expand [pair_triangle] 0%nat
           pair_triangle [3%nat]);
    [ reflexivity | exact pair_triangle_wf | reflexivity | reflexivity ].
Defined.

Lemma expand_same_results_witness :
  exists d' t t' c c',
    expand true rejects_nan low_message no_super_expand [unit_triangle] 0%nat [2%nat] =
      Ok (1%nat, [unit_triangle; d']) /\
    log_prob unit_triangle (scalar_tensor (Real (1 / 4))) = Ok t /\
    log_prob d' (scalar_tensor (Real (1 / 4))) = Ok t' /\
    cdf unit_triangle (scalar_tensor (Real (1 / 4))) = Ok c /\
    cdf d' (scalar_tensor (Real (1 / 4))) = Ok c' /\
    shape t' = [2%nat] /\ shape c' = [2%nat] /\
    forall i, in_range [2%nat] i = true ->
      elem t' i = bget t i /\ elem c' i = bget c i.
Proof.
  apply (expand_same_results true rejects_nan low_message no_super_expand [unit_triangle] 0%nat
           unit_triangle [2%nat] (scalar_tensor (Real (1 / 4))) [2%nat]);
    [ reflexivity | exact unit_triangle_wf | reflexivity | reflexivity
    | reflexivity ].
Defined.

Lemma expand_twice_witness :
  exists d1 d2 d',
    expand true rejects_nan low_message no_super_expand [unit_triangle] 0%nat [2%nat] =
      Ok (1%nat, [unit_triangle; d1]) /\
    expand true rejects_nan low_message no_super_expand [unit_triangle; d1] 1%nat [3%nat; 2%nat] =
      Ok (2%nat, [unit_triangle; d1; d2]) /\
    expand true rejects_nan low_message no_super_expand [unit_triangle] 0%nat [3%nat; 2%nat] =
      Ok (1%nat, [unit_triangle; d']) /\
    elem (peak d2) [2%nat; 1%nat] = elem (peak d') [2%nat; 1%nat].
Proof.
  destruct (expand_twice true rejects_nan low_message no_super_expand [unit_triangle] 0%nat
              unit_triangle [2%nat] [3%nat; 2%nat])
    as (d1 & d2 & d' & E1 & E2 & E' & _ & _ & _ & G);
    [ intros; reflexivity | reflexivity | exact unit_triangle_wf
    | reflexivity | reflexivity |].
  exists d1, d2, d'; split; [exact E1|]; split; [exact E2|];
    split; [exact E'|].
  destruct (G [2%nat; 1%nat] eq_refl) as (_ & _ & Hp). exact Hp.
Defined.
